(** * ChestImagingPlatform: airway particle connectivity and the
      parameter-file readers of LabelAirwayParticlesByGeneration

    Two source files are embedded here.

    - [Common/cipAirwayParticleConnectedComponentFilter.cxx]: the pairwise
      test [EvaluateParticleConnectedness] (module [Connected]).
    - [CommandLineTools/LabelAirwayParticlesByGeneration/
      LabelAirwayParticlesByGeneration.cxx]: the three readers
      [SetEmissionProbabilityStatsFromFile],
      [SetTransitionProbabilitiesFromFile] and
      [SetTransitionProbabilityStatsFromFile], and the confusion matrix of
      the Dice report in [main] (module [Labeler]).

    A C++ [double] is a primitive binary64 float, so that not-a-number and
    the signed zeros behave as they do in the program.  An [unsigned int]
    is a [Z] reduced modulo [2^32].  A [char] buffer is a [list ascii].
    Code that is not among the files (the geometry helpers of the base
    class, [ChestConventions], the labelling filter, the C library's
    [atof]) is a parameter of the definitions; a reader's effect is the
    list of the setter calls it makes.

    The claims and their theorems:
    - C1 [Connected.evaluate_true_iff], C2 [Connected.evaluate_symmetric],
      C3 [Connected.far_apart_not_connected],
      C4 [Connected.zero_scales_pass_scale_test];
    - C5 [Labeler.emission_name_keeps_comma], C6 [Labeler.parse_truncation],
      C7 [Labeler.transition_grid], C8 [Labeler.stats_rows_by_sample_count],
      C9 [Labeler.confusion_matrix_is_ten_by_ten],
      C10 [Labeler.unterminated_last_row_discarded]. *)

From Stdlib Require Import ZArith Bool Lia Ascii String DecimalString Floats List.
Import ListNotations.

(** ** Facts about binary64 used by both modules *)

Module Double.

Open Scope float_scope.

(** [x] is a not-a-number. *)
Definition isNaN (x : float) : bool := is_nan x.

Lemma SFcompare_nan_r (x : spec_float) : SFcompare x S754_nan = None.
Proof. destruct x; reflexivity. Qed.

Lemma SFcompare_antisym (x y : spec_float) :
  SFcompare y x = option_map CompOpp (SFcompare x y).
Proof.
  destruct x as [sx|sx| |sx mx ex], y as [sy|sy| |sy my ey];
    cbn [SFcompare option_map];
    try reflexivity;
    try (destruct sx; reflexivity); try (destruct sy; reflexivity);
    try (destruct sx, sy; reflexivity).
  destruct sx, sy; try reflexivity; f_equal;
    rewrite (Z.compare_antisym ex ey), (ZC4 my mx);
    destruct (ex ?= ey)%Z; cbn [CompOpp]; try reflexivity;
    destruct (Pos.compare_cont Eq mx my); reflexivity.
Qed.

(** Comparing anything with a not-a-number answers false. *)
Lemma ltb_nan_r (x : float) : (x <? nan) = false.
Proof.
  rewrite ltb_spec. unfold SFltb.
  change (Prim2SF nan) with S754_nan. now rewrite SFcompare_nan_r.
Qed.

Lemma ltb_nan_l (x : float) : (nan <? x) = false.
Proof. rewrite ltb_spec. reflexivity. Qed.

Lemma leb_nan_l (x : float) : (nan <=? x) = false.
Proof. rewrite leb_spec. reflexivity. Qed.

Lemma Prim2SF_nan (x : float) : Prim2SF x = S754_nan -> x = nan.
Proof. intros H. apply Prim2SF_inj. exact H. Qed.

Lemma isNaN_spec (x : float) : isNaN x = true <-> x = nan.
Proof.
  unfold isNaN, is_nan. rewrite eqb_spec. unfold SFeqb. split.
  - intros H. apply Prim2SF_nan.
    destruct (Prim2SF x) as [s|s| |s m e] eqn:E; trivial; exfalso; simpl in H.
    + discriminate.
    + destruct s; discriminate.
    + destruct s; rewrite Z.compare_refl, Pos.compare_cont_refl in H;
        discriminate.
  - intros ->. reflexivity.
Qed.

(** Only a not-a-number is incomparable. *)
Lemma SFcompare_None (x y : spec_float) :
  SFcompare x y = None -> x = S754_nan \/ y = S754_nan.
Proof.
  destruct x, y; simpl; intros H; try discriminate; auto.
Qed.

(** Away from not-a-numbers, "not greater than" and "at most" agree. *)
Lemma not_ltb_leb (a b : float) :
  isNaN a = false -> isNaN b = false ->
  (b <? a) = negb (a <=? b).
Proof.
  intros Ha Hb. rewrite ltb_spec, leb_spec. unfold SFltb, SFleb.
  rewrite (SFcompare_antisym (Prim2SF a) (Prim2SF b)).
  destruct (SFcompare (Prim2SF a) (Prim2SF b)) as [[]|] eqn:E; try reflexivity.
  exfalso. destruct (SFcompare_None _ _ E) as [H|H];
    apply Prim2SF_nan in H; subst; vm_compute in Ha, Hb; discriminate.
Qed.

(** "At most" excludes "greater than", not-a-numbers included. *)
Lemma leb_not_ltb (a b : float) :
  (a <=? b) = true -> (b <? a) = false.
Proof.
  rewrite ltb_spec, leb_spec. unfold SFltb, SFleb.
  rewrite (SFcompare_antisym (Prim2SF a) (Prim2SF b)).
  now destruct (SFcompare (Prim2SF a) (Prim2SF b)) as [[]|].
Qed.

(** *** Sign symmetry of rounding

    Rounding to nearest even treats a value and its opposite alike.  Two
    results [mirror] each other when one is the opposite of the other, or both
    are zeros (of any sign): this is how [p - q] and [q - p] are related,
    and the relation is kept by sums and by products with a common factor.
    The lemmas hold for any format [prec], [emax]. *)

Definition mirror (x y : spec_float) : Prop :=
  y = SFopp x \/ exists s t, x = S754_zero s /\ y = S754_zero t.

Section Format.
Variables prec emax : Z.

Lemma SFopp_round_aux (s : bool) (m e : Z) (l : location) :
  binary_round_aux prec emax (negb s) m e l =
  SFopp (binary_round_aux prec emax s m e l).
Proof.
  unfold binary_round_aux.
  destruct (shr_fexp prec emax m e l) as [mrs e'].
  destruct (shr_fexp prec emax _ e' loc_Exact) as [mrs' e''].
  destruct (shr_m mrs'); try reflexivity.
  destruct (e'' <=? emax - prec)%Z; reflexivity.
Qed.

Lemma SFopp_round (s : bool) (m : positive) (e : Z) :
  binary_round prec emax (negb s) m e = SFopp (binary_round prec emax s m e).
Proof.
  unfold binary_round. destruct (shl_align _ _ _). apply SFopp_round_aux.
Qed.

Lemma mirror_nan : mirror S754_nan S754_nan.
Proof. now left. Qed.

Lemma mirror_zero (s t : bool) : mirror (S754_zero s) (S754_zero t).
Proof. right; eauto. Qed.

Lemma mirror_normalize (m e : Z) :
  mirror (binary_normalize prec emax m e false)
      (binary_normalize prec emax (- m) e false).
Proof.
  destruct m; simpl.
  - apply mirror_zero.
  - left. apply (SFopp_round false).
  - left. apply (SFopp_round true).
Qed.

Lemma cond_Zopp_negb (s : bool) (m : Z) :
  cond_Zopp (negb s) m = (- cond_Zopp s m)%Z.
Proof. destruct s; simpl; lia. Qed.

Ltac mirror_normalized :=
  match goal with
  | |- mirror (binary_normalize _ _ ?a _ _) (binary_normalize _ _ ?b _ _) =>
      replace b with (- a)%Z by lia; apply mirror_normalize
  end.

Lemma mirror_sub (x y : spec_float) :
  mirror (SFsub prec emax x y) (SFsub prec emax y x).
Proof.
  destruct x as [sx|sx| |sx mx ex], y as [sy|sy| |sy my ey];
    cbn [SFsub]; try apply mirror_nan;
    try (destruct sx, sy; first [apply mirror_zero | now left]);
    try (left; cbn [SFopp]; now rewrite ?negb_involutive).
  rewrite (Z.min_comm ey ex). mirror_normalized.
Qed.

Lemma mirror_mul (h x y : spec_float) :
  mirror x y -> mirror (SFmul prec emax h x) (SFmul prec emax h y).
Proof.
  intros [->|(s & t & -> & ->)].
  - left. destruct h as [sh|sh| |sh mh eh], x as [sx|sx| |sx mx ex];
      cbn [SFmul SFopp]; try reflexivity;
      try (now destruct sh, sx).
    rewrite <- SFopp_round_aux. f_equal. now destruct sh, sx.
  - destruct h; cbn [SFmul]; first [apply mirror_zero | apply mirror_nan].
Qed.

Lemma mirror_square (x y : spec_float) :
  mirror x y -> SFmul prec emax x x = SFmul prec emax y y.
Proof.
  intros [->|(s & t & -> & ->)].
  - destruct x as [s|s| |s m e]; cbn [SFmul SFopp]; try reflexivity;
      now destruct s.
  - cbn. now destruct s, t.
Qed.

Lemma mirror_add (a a' b b' : spec_float) :
  mirror a a' -> mirror b b' ->
  mirror (SFadd prec emax a b) (SFadd prec emax a' b').
Proof.
  intros [->|(s & t & -> & ->)] [->|(u & v & -> & ->)].
  - destruct a as [sa|sa| |sa ma ea], b as [sb|sb| |sb mb eb];
      cbn [SFadd SFopp]; try apply mirror_nan;
      try (destruct sa, sb; first [apply mirror_zero | now left]);
      try (now left).
    rewrite !cond_Zopp_negb. mirror_normalized.
  - destruct a as [sa|sa| |sa ma ea]; cbn [SFadd SFopp];
      try apply mirror_nan; try (now left).
    destruct sa, u, v; cbn; first [apply mirror_zero | now left].
  - destruct b as [sb|sb| |sb mb eb]; cbn [SFadd SFopp].
    + destruct s, t, sb; cbn; first [apply mirror_zero | now left].
    + destruct s, t; now left.
    + destruct s, t; apply mirror_nan.
    + destruct s, t; now left.
  - destruct s, t, u, v; cbn; apply mirror_zero.
Qed.

Lemma mirror_abs (x y : spec_float) : mirror x y -> SFabs x = SFabs y.
Proof.
  intros [->|(s & t & -> & ->)]; [|reflexivity]. now destruct x.
Qed.

End Format.

(** The same on primitive floats. *)
Definition reversed (x y : float) : Prop := mirror (Prim2SF x) (Prim2SF y).

Lemma reversed_sub (p q : float) : reversed (p - q) (q - p).
Proof. unfold reversed. rewrite !sub_spec. apply mirror_sub. Qed.

Lemma reversed_mul (h x y : float) :
  reversed x y -> reversed (h * x) (h * y).
Proof. unfold reversed. rewrite !mul_spec. apply mirror_mul. Qed.

Lemma reversed_add (a a' b b' : float) :
  reversed a a' -> reversed b b' -> reversed (a + b) (a' + b').
Proof. unfold reversed. rewrite !add_spec. apply mirror_add. Qed.

Lemma reversed_square (x y : float) : reversed x y -> x * x = y * y.
Proof.
  intros H. apply Prim2SF_inj. rewrite !mul_spec. now apply mirror_square.
Qed.

Lemma reversed_abs (x y : float) : reversed x y -> abs x = abs y.
Proof.
  intros H. apply Prim2SF_inj. rewrite !abs_spec. now apply mirror_abs.
Qed.

Lemma abs_sub_sym (a b : float) : abs (a - b) = abs (b - a).
Proof. apply reversed_abs, reversed_sub. Qed.

(** Two floats that compare equal are the same float or two zeros. *)
Lemma SFcompare_Eq (x y : spec_float) :
  SFcompare x y = Some Eq ->
  x = y \/ (exists s t, x = S754_zero s /\ y = S754_zero t).
Proof.
  destruct x as [sx|sx| |sx mx ex], y as [sy|sy| |sy my ey]; cbn [SFcompare];
    intros H; try discriminate;
    try (destruct sx; discriminate); try (destruct sy; discriminate).
  - right. eauto.
  - left. destruct sx, sy; try discriminate; reflexivity.
  - left. injection H as H.
    destruct sx, sy; try discriminate;
      destruct (ex ?= ey)%Z eqn:E; try discriminate;
      apply Z.compare_eq in E; subst ey;
      (destruct (Pos.compare_cont Eq mx my) eqn:E'; try discriminate);
      apply Pcompare_Eq_eq in E'; subst; reflexivity.
Qed.

(** A quotient whose numerator is a not-a-number is one; so is [0/0]. *)
Lemma div_nan_l (y : float) : nan / y = nan.
Proof. apply Prim2SF_inj. rewrite div_spec. reflexivity. Qed.

Lemma sub_nan_l (y : float) : nan - y = nan.
Proof. apply Prim2SF_inj. rewrite sub_spec. reflexivity. Qed.

Lemma sub_nan_r (x : float) : x - nan = nan.
Proof.
  apply Prim2SF_inj. rewrite sub_spec.
  change (Prim2SF nan) with S754_nan. now destruct (Prim2SF x).
Qed.

End Double.

(** ** cipAirwayParticleConnectedComponentFilter *)

Module Connected.

Import Double.
Open Scope float_scope.

(** [a > b] on doubles, written as in the source. *)
Definition gtb (a b : float) : bool := b <? a.
Infix ">?" := gtb (at level 70, no associativity) : float_scope.

(** A C array [double v[3]]. *)
Record vec3 := Vec3 { c0 : float; c1 : float; c2 : float }.

(** The [vtkPolyData] as far as the filter reads it: the points, and the
    field data arrays ["scale"] (first tuple component) and ["hevec2"].
    [None] is an array that [GetArray] does not find. *)
Record PolyData := {
  Points : list vec3;
  scaleArray : option (list float);
  hevec2Array : option (list vec3)
}.

(** The members of the filter object read by the test.
    [ParticleDistanceThreshold] and [ParticleAngleThreshold] are declared in
    the base class and set through it. *)
Record Filter := {
  InternalInputPolyData : PolyData;
  ScaleRatioThreshold : float;
  ParticleDistanceThreshold : float;
  ParticleAngleThreshold : float
}.

(** The constructor: the scale ratio threshold starts at [1.0] and the
    distance threshold at the base class's [InterParticleSpacing]; the
    input and the angle threshold are the base class's. *)
Definition construct (input : PolyData)
    (InterParticleSpacing angleThreshold : float) : Filter :=
  {| InternalInputPolyData := input;
     ScaleRatioThreshold := 1;
     ParticleDistanceThreshold := InterParticleSpacing;
     ParticleAngleThreshold := angleThreshold |}.

Definition SetScaleRatioThreshold (f : Filter) (threshold : float) : Filter :=
  {| InternalInputPolyData := InternalInputPolyData f;
     ScaleRatioThreshold := threshold;
     ParticleDistanceThreshold := ParticleDistanceThreshold f;
     ParticleAngleThreshold := ParticleAngleThreshold f |}.

Definition GetScaleRatioThreshold (f : Filter) : float := ScaleRatioThreshold f.

(** Reading a tuple: [None] when the array is missing or the index is out
    of range, where the program has no defined behaviour. *)
Definition GetScale (pd : PolyData) (i : nat) : option float :=
  match scaleArray pd with Some a => nth_error a i | None => None end.

Definition GetHevec2 (pd : PolyData) (i : nat) : option vec3 :=
  match hevec2Array pd with Some a => nth_error a i | None => None end.

Definition GetPoint (pd : PolyData) (i : nat) : option vec3 :=
  nth_error (Points pd) i.

Definition vsub (p q : vec3) : vec3 :=
  Vec3 (c0 p - c0 q) (c1 p - c1 q) (c2 p - c2 q).

(** [maxScale] and the quotient compared with the scale ratio threshold. *)
Definition maxScale (scale1 scale2 : float) : float :=
  if scale1 >? scale2 then scale1 else scale2.

Definition scaleRatio (scale1 scale2 : float) : float :=
  abs (scale1 - scale2) / maxScale scale1 scale2.

Notation "x <- e ;; k" :=
  (match e with Some x => k | None => None end)
  (at level 61, e at next level, right associativity, only parsing).

Section Evaluate.

(** The two geometry helpers are members of the base class
    [cipParticleConnectedComponentFilter]; the test is stated over any
    implementation of them. *)
Variable GetVectorMagnitude : vec3 -> float.
Variable GetAngleBetweenVectors : vec3 -> vec3 -> bool -> float.

Definition EvaluateParticleConnectedness
    (f : Filter) (particleIndex1 particleIndex2 : nat) : option bool :=
  let pd := InternalInputPolyData f in
  scale1 <- GetScale pd particleIndex1 ;;
  scale2 <- GetScale pd particleIndex2 ;;
  if scaleRatio scale1 scale2 >? ScaleRatioThreshold f then Some false else
  point1 <- GetPoint pd particleIndex1 ;;
  point2 <- GetPoint pd particleIndex2 ;;
  let connectingVec := vsub point1 point2 in
  particle1Hevec2 <- GetHevec2 pd particleIndex1 ;;
  particle2Hevec2 <- GetHevec2 pd particleIndex2 ;;
  if GetVectorMagnitude connectingVec >? ParticleDistanceThreshold f
  then Some false else
  let theta1 := GetAngleBetweenVectors particle1Hevec2 connectingVec true in
  let theta2 := GetAngleBetweenVectors particle2Hevec2 connectingVec true in
  if (theta1 >? ParticleAngleThreshold f) || (theta2 >? ParticleAngleThreshold f)
  then Some false else Some true.

(** The ["scale"] and ["hevec2"] arrays and the points hold entries for
    both particles. *)
Definition present (f : Filter) (i j : nat)
    (s1 s2 : float) (p1 p2 h1 h2 : vec3) : Prop :=
  let pd := InternalInputPolyData f in
  GetScale pd i = Some s1 /\ GetScale pd j = Some s2 /\
  GetPoint pd i = Some p1 /\ GetPoint pd j = Some p2 /\
  GetHevec2 pd i = Some h1 /\ GetHevec2 pd j = Some h2.

(** The three rejection tests of the source, on the values read. *)
Definition scaleRejects (f : Filter) (s1 s2 : float) : bool :=
  scaleRatio s1 s2 >? ScaleRatioThreshold f.

Definition distanceRejects (f : Filter) (p1 p2 : vec3) : bool :=
  GetVectorMagnitude (vsub p1 p2) >? ParticleDistanceThreshold f.

Definition angleRejects (f : Filter) (h p1 p2 : vec3) : bool :=
  GetAngleBetweenVectors h (vsub p1 p2) true >? ParticleAngleThreshold f.

(** The three criteria worded with "at most". *)
Definition scalePasses (f : Filter) (s1 s2 : float) : bool :=
  scaleRatio s1 s2 <=? ScaleRatioThreshold f.

Definition distancePasses (f : Filter) (p1 p2 : vec3) : bool :=
  GetVectorMagnitude (vsub p1 p2) <=? ParticleDistanceThreshold f.

Definition anglePasses (f : Filter) (h p1 p2 : vec3) : bool :=
  GetAngleBetweenVectors h (vsub p1 p2) true <=? ParticleAngleThreshold f.

(** None of the compared quantities is a not-a-number. *)
Definition comparable (f : Filter) (s1 s2 : float) (p1 p2 h1 h2 : vec3)
  : bool :=
  negb (isNaN (scaleRatio s1 s2) || isNaN (ScaleRatioThreshold f)
        || isNaN (GetVectorMagnitude (vsub p1 p2))
        || isNaN (ParticleDistanceThreshold f)
        || isNaN (GetAngleBetweenVectors h1 (vsub p1 p2) true)
        || isNaN (GetAngleBetweenVectors h2 (vsub p1 p2) true)
        || isNaN (ParticleAngleThreshold f)).

End Evaluate.

(** *** Reference helpers

    The base class's [GetVectorMagnitude] and [GetAngleBetweenVectors] are
    not among the files.  The two below serve to run the test on
    inputs. *)

Definition dot (a b : vec3) : float :=
  c0 a * c0 b + c1 a * c1 b + c2 a * c2 b.

(** Modelled from the spec: [GetVectorMagnitude] of the base class, which
    the spec gives as the length [|v|] of the vector. *)
Definition refVectorMagnitude (v : vec3) : float := sqrt (dot v v).

(** A polynomial stand-in for the C library's arc cosine on [0, 1]
    (Abramowitz and Stegun 4.4.45, its coefficients 1.5707288, -0.2121144,
    0.0742610 and -0.0187293 rounded to binary64); exact at 1. *)
Definition acosPoly (x : float) : float :=
  sqrt (1 - x) *
  (0x1.921b485ae2a4ap+0
   + x * (-0x1.b26908d815d63p-3
          + x * (0x1.302c4d65e4606p-4 + x * -0x1.32dc60be86b8fp-6))).

(** Modelled from the spec: [GetAngleBetweenVectors] of the base class,
    which the spec gives as the "absolute angle, normalized into [0,90]
    degrees" between the two vectors: the arc cosine of the magnitude of
    the cosine. *)
Definition refAngleBetweenVectors (vec1 vec2 : vec3) (returnDegrees : bool)
  : float :=
  let arg := abs (dot vec1 vec2)
             / (refVectorMagnitude vec1 * refVectorMagnitude vec2) in
  let arg := if arg >? 1 then 1 else arg in
  let angle := acosPoly arg in
  if returnDegrees then (180 / 0x1.921fb54442d18p+1) * angle else angle.

Definition refEvaluate : Filter -> nat -> nat -> option bool :=
  EvaluateParticleConnectedness refVectorMagnitude refAngleBetweenVectors.

(** Two particles one unit apart along the x axis, with minor eigenvectors
    along that axis, parameterised by their scales and by the distance
    threshold. *)
Definition pairOnAxis (s1 s2 x2 dthr : float) : Filter :=
  {| InternalInputPolyData :=
       {| Points := [Vec3 0 0 0; Vec3 x2 0 0];
          scaleArray := Some [s1; s2];
          hevec2Array := Some [Vec3 1 0 0; Vec3 1 0 0] |};
     ScaleRatioThreshold := 1;
     ParticleDistanceThreshold := dthr;
     ParticleAngleThreshold := 20 |}.

(** Two particles of different scale, off the axes, whose eigenvectors
    differ. *)
Definition skewPair : Filter :=
  {| InternalInputPolyData :=
       {| Points := [Vec3 0.5 0 0.25; Vec3 1.5 1 0.25];
          scaleArray := Some [1; 3];
          hevec2Array := Some [Vec3 1 1 0; Vec3 1 0.875 0] |};
     ScaleRatioThreshold := 1;
     ParticleDistanceThreshold := 2;
     ParticleAngleThreshold := 20 |}.

(** Two particles of scales 1 and 3 in a data set that has no ["hevec2"]
    array. *)
Definition scalesOnly : Filter :=
  {| InternalInputPolyData :=
       {| Points := [Vec3 0 0 0; Vec3 9 0 0];
          scaleArray := Some [1; 3];
          hevec2Array := None |};
     ScaleRatioThreshold := 1;
     ParticleDistanceThreshold := 2;
     ParticleAngleThreshold := 20 |}.

(** The thresholds of [f'] are at least those of [f], on the same data. *)
Definition looser (f f' : Filter) : Prop :=
  InternalInputPolyData f' = InternalInputPolyData f /\
  (ScaleRatioThreshold f <=? ScaleRatioThreshold f') = true /\
  (ParticleDistanceThreshold f <=? ParticleDistanceThreshold f') = true /\
  (ParticleAngleThreshold f <=? ParticleAngleThreshold f') = true.

(** *** Properties of the test *)

Lemma maxScale_ltb (a b : float) :
  maxScale a b = if b <? a then a else b.
Proof. reflexivity. Qed.

(** The scale quotient does not depend on the order of the two scales. *)
Lemma scaleRatio_sym (a b : float) : scaleRatio a b = scaleRatio b a.
Proof.
  unfold scaleRatio. rewrite !maxScale_ltb, (abs_sub_sym b a).
  rewrite !ltb_spec. unfold SFltb.
  rewrite (SFcompare_antisym (Prim2SF a) (Prim2SF b)).
  destruct (SFcompare (Prim2SF a) (Prim2SF b)) as [[]|] eqn:E;
    cbn [option_map CompOpp]; try reflexivity.
  - destruct (SFcompare_Eq _ _ E) as [H|(s & t & Ha & Hb)].
    + apply Prim2SF_inj in H. now subst.
    + apply Prim2SF_inj. rewrite !div_spec, !abs_spec, !sub_spec, Ha, Hb.
      now destruct s, t.
  - destruct (SFcompare_None _ _ E) as [H|H]; apply Prim2SF_nan in H; subst.
    + now rewrite sub_nan_l, !div_nan_l.
    + now rewrite sub_nan_r, !div_nan_l.
Qed.

(** A float that compares equal to zero is one of the two zeros. *)
Lemma eqb_zero (x : float) :
  (x =? 0) = true -> exists s, Prim2SF x = S754_zero s.
Proof.
  rewrite eqb_spec. unfold SFeqb. change (Prim2SF 0) with (S754_zero false).
  destruct (Prim2SF x) as [s|s| |s m e]; simpl; try discriminate; eauto.
  - destruct s; discriminate.
  - destruct s; discriminate.
Qed.

(** With both scales zero the quotient is [0/0], a not-a-number. *)
Lemma scaleRatio_zero (a b : float) :
  (a =? 0) = true -> (b =? 0) = true -> scaleRatio a b = nan.
Proof.
  intros Ha Hb. apply eqb_zero in Ha, Hb. destruct Ha as [s Ha], Hb as [t Hb].
  unfold scaleRatio. rewrite maxScale_ltb. apply Prim2SF_inj.
  rewrite div_spec, abs_spec, sub_spec, Ha, Hb.
  destruct (b <? a); rewrite ?Ha, ?Hb; now destruct s, t.
Qed.

Section Properties.

Variable GetVectorMagnitude : vec3 -> float.
Variable GetAngleBetweenVectors : vec3 -> vec3 -> bool -> float.

Local Abbreviation Evaluate :=
  (EvaluateParticleConnectedness GetVectorMagnitude GetAngleBetweenVectors).
Local Abbreviation distanceRejects' := (distanceRejects GetVectorMagnitude).
Local Abbreviation angleRejects' := (angleRejects GetAngleBetweenVectors).
Local Abbreviation distancePasses' := (distancePasses GetVectorMagnitude).
Local Abbreviation anglePasses' := (anglePasses GetAngleBetweenVectors).
Local Abbreviation comparable' :=
  (comparable GetVectorMagnitude GetAngleBetweenVectors).

Lemma evaluate_present f i j s1 s2 p1 p2 h1 h2 :
  present f i j s1 s2 p1 p2 h1 h2 ->
  Evaluate f i j =
  Some (negb (scaleRejects f s1 s2) && negb (distanceRejects' f p1 p2)
        && negb (angleRejects' f h1 p1 p2 || angleRejects' f h2 p1 p2)).
Proof.
  intros (Hs1 & Hs2 & Hp1 & Hp2 & Hh1 & Hh2).
  unfold EvaluateParticleConnectedness, scaleRejects, distanceRejects',
    angleRejects'.
  cbv zeta. rewrite Hs1, Hs2.
  destruct (scaleRatio s1 s2 >? _); [reflexivity|].
  rewrite Hp1, Hp2, Hh1, Hh2.
  destruct (GetVectorMagnitude _ >? _); [reflexivity|].
  destruct (_ || _); reflexivity.
Qed.

(** The scale test comes first: when it rejects, the answer is false even
    if the points or the eigenvectors cannot be read. *)
Lemma evaluate_scale_first f i j s1 s2 :
  GetScale (InternalInputPolyData f) i = Some s1 ->
  GetScale (InternalInputPolyData f) j = Some s2 ->
  scaleRejects f s1 s2 = true ->
  Evaluate f i j = Some false.
Proof.
  intros H1 H2 H. unfold EvaluateParticleConnectedness. cbv zeta.
  rewrite H1, H2. unfold scaleRejects in H. now rewrite H.
Qed.

(** C1 (amended).  When the arrays hold both particles, the test answers
    true exactly when none of its three rejection tests fires: the scale
    quotient is not greater than the scale ratio threshold, the length of
    the connecting vector is not greater than the distance threshold, and
    neither angle is greater than the angle threshold.  When no compared
    quantity is a not-a-number, this is the same as the three "at most"
    criteria passing. *)
Theorem evaluate_true_iff f i j s1 s2 p1 p2 h1 h2 :
  present f i j s1 s2 p1 p2 h1 h2 ->
  (Evaluate f i j = Some true <->
     scaleRejects f s1 s2 = false /\ distanceRejects' f p1 p2 = false /\
     angleRejects' f h1 p1 p2 = false /\ angleRejects' f h2 p1 p2 = false)
  /\
  (comparable' f s1 s2 p1 p2 h1 h2 = true ->
   (Evaluate f i j = Some true <->
      scalePasses f s1 s2 = true /\ distancePasses' f p1 p2 = true /\
      anglePasses' f h1 p1 p2 = true /\ anglePasses' f h2 p1 p2 = true)).
Proof.
  intros H. rewrite (evaluate_present _ _ _ _ _ _ _ _ _ H). split.
  - split.
    + intros E. injection E as E.
      apply andb_prop in E as [E E3]. apply andb_prop in E as [E1 E2].
      apply negb_true_iff in E1, E2, E3. apply orb_false_elim in E3.
      tauto.
    + intros (E1 & E2 & E3 & E4). now rewrite E1, E2, E3, E4.
  - unfold comparable'. rewrite negb_true_iff, !orb_false_iff.
    intros ((((((N1 & N2) & N3) & N4) & N5) & N6) & N7).
    unfold scaleRejects, distanceRejects', angleRejects', gtb.
    rewrite (not_ltb_leb _ _ N1 N2), (not_ltb_leb _ _ N3 N4),
      (not_ltb_leb _ _ N5 N7), (not_ltb_leb _ _ N6 N7), !negb_involutive.
    unfold scalePasses, distancePasses', anglePasses'. split.
    + intros E. injection E as E.
      apply andb_prop in E as [E E3]. apply andb_prop in E as [E1 E2].
      apply negb_true_iff, orb_false_elim in E3.
      rewrite !negb_false_iff in E3. tauto.
    + intros (E1 & E2 & E3 & E4). now rewrite E1, E2, E3, E4.
Qed.

(** C3.  When the arrays hold both particles and the length of the
    connecting vector is greater than the distance threshold, the test
    answers false, whatever the scales and the angles. *)
Theorem far_apart_not_connected f i j s1 s2 p1 p2 h1 h2 :
  present f i j s1 s2 p1 p2 h1 h2 ->
  distanceRejects' f p1 p2 = true ->
  Evaluate f i j = Some false.
Proof.
  intros H D. rewrite (evaluate_present _ _ _ _ _ _ _ _ _ H), D.
  now rewrite andb_false_r.
Qed.

(** C4 (amended).  When both scales are zero the scale quotient is the
    not-a-number [0/0], the scale test does not reject, and the answer is
    the one the distance and angle tests give. *)
Theorem zero_scales_pass_scale_test f i j s1 s2 p1 p2 h1 h2 :
  present f i j s1 s2 p1 p2 h1 h2 ->
  (s1 =? 0) = true -> (s2 =? 0) = true ->
  scaleRejects f s1 s2 = false /\
  Evaluate f i j =
  Some (negb (distanceRejects' f p1 p2)
        && negb (angleRejects' f h1 p1 p2 || angleRejects' f h2 p1 p2)).
Proof.
  intros H Z1 Z2.
  assert (R : scaleRejects f s1 s2 = false).
  { unfold scaleRejects, gtb. rewrite (scaleRatio_zero _ _ Z1 Z2).
    apply ltb_nan_r. }
  split; [exact R|].
  now rewrite (evaluate_present _ _ _ _ _ _ _ _ _ H), R.
Qed.

End Properties.

(** *** Symmetry *)

Section Symmetry.

Variable GetVectorMagnitude : vec3 -> float.
Variable GetAngleBetweenVectors : vec3 -> vec3 -> bool -> float.

(** The helpers give the same length and the same angle for the vector
    from [q] to [p] and for the vector from [p] to [q]. *)
Hypothesis magnitude_reversal : forall p q,
  GetVectorMagnitude (vsub p q) = GetVectorMagnitude (vsub q p).
Hypothesis angle_reversal : forall h p q,
  GetAngleBetweenVectors h (vsub p q) true =
  GetAngleBetweenVectors h (vsub q p) true.

(** C2.  The test gives the same answer for [(i, j)] and for [(j, i)]. *)
Theorem evaluate_symmetric (f : Filter) (i j : nat) :
  EvaluateParticleConnectedness GetVectorMagnitude GetAngleBetweenVectors
    f i j =
  EvaluateParticleConnectedness GetVectorMagnitude GetAngleBetweenVectors
    f j i.
Proof.
  unfold EvaluateParticleConnectedness. cbv zeta.
  destruct (GetScale _ i) as [s1|], (GetScale _ j) as [s2|]; try reflexivity.
  rewrite (scaleRatio_sym s2 s1).
  destruct (scaleRatio s1 s2 >? _); [reflexivity|].
  destruct (GetPoint _ i) as [p1|], (GetPoint _ j) as [p2|]; try reflexivity.
  destruct (GetHevec2 _ i) as [h1|], (GetHevec2 _ j) as [h2|];
    try reflexivity.
  rewrite (magnitude_reversal p2 p1), (angle_reversal h1 p2 p1),
    (angle_reversal h2 p2 p1).
  destruct (GetVectorMagnitude _ >? _); [reflexivity|].
  now rewrite orb_comm.
Qed.

End Symmetry.

(** The reference helpers are insensitive to the reversal. *)
Lemma refVectorMagnitude_reversal (p q : vec3) :
  refVectorMagnitude (vsub p q) = refVectorMagnitude (vsub q p).
Proof.
  unfold refVectorMagnitude, dot, vsub. cbn [c0 c1 c2].
  now rewrite (reversed_square _ _ (reversed_sub (c0 p) (c0 q))),
    (reversed_square _ _ (reversed_sub (c1 p) (c1 q))),
    (reversed_square _ _ (reversed_sub (c2 p) (c2 q))).
Qed.

Lemma dot_reversal (h p q : vec3) :
  reversed (dot h (vsub p q)) (dot h (vsub q p)).
Proof.
  unfold dot, vsub. cbn [c0 c1 c2].
  repeat apply reversed_add; apply reversed_mul, reversed_sub.
Qed.

Lemma refAngleBetweenVectors_reversal (h p q : vec3) (d : bool) :
  refAngleBetweenVectors h (vsub p q) d =
  refAngleBetweenVectors h (vsub q p) d.
Proof.
  unfold refAngleBetweenVectors.
  now rewrite (reversed_abs _ _ (dot_reversal h p q)),
    (refVectorMagnitude_reversal p q).
Qed.

(** *** The test on inputs *)

Lemma present_pairOnAxis (s1 s2 x2 dthr : float) :
  present (pairOnAxis s1 s2 x2 dthr) 0 1 s1 s2
    (Vec3 0 0 0) (Vec3 x2 0 0) (Vec3 1 0 0) (Vec3 1 0 0).
Proof. repeat split. Qed.

(** Equal scales, one unit apart, eigenvectors along the connecting
    vector: connected under the distance threshold 2. *)
Lemma evaluate_true_iff_witness :
  comparable refVectorMagnitude refAngleBetweenVectors
    (pairOnAxis 1 1 1 2) 1 1
    (Vec3 0 0 0) (Vec3 1 0 0) (Vec3 1 0 0) (Vec3 1 0 0) = true /\
  refEvaluate (pairOnAxis 1 1 1 2) 0 1 = Some true.
Proof.
  split; [reflexivity|].
  destruct (evaluate_true_iff refVectorMagnitude refAngleBetweenVectors
              _ _ _ _ _ _ _ _ _ (present_pairOnAxis 1 1 1 2)) as [_ H].
  apply H; [reflexivity|]. repeat split.
Defined.

(** C1, as stated, fails on two particles of scale zero: the test answers
    true although the quotient [0/0] is not at most the threshold. *)
Lemma criteria_counterexample :
  present (pairOnAxis 0 0 1 2) 0 1 0 0
    (Vec3 0 0 0) (Vec3 1 0 0) (Vec3 1 0 0) (Vec3 1 0 0) /\
  refEvaluate (pairOnAxis 0 0 1 2) 0 1 = Some true /\
  scalePasses (pairOnAxis 0 0 1 2) 0 0 = false.
Proof. repeat split. Qed.

(** The same particles three units apart are not connected. *)
Lemma far_apart_witness :
  distanceRejects refVectorMagnitude (pairOnAxis 1 1 3 2)
    (Vec3 0 0 0) (Vec3 3 0 0) = true /\
  refEvaluate (pairOnAxis 1 1 3 2) 0 1 = Some false.
Proof.
  split; [reflexivity|].
  apply (far_apart_not_connected refVectorMagnitude refAngleBetweenVectors
           _ _ _ _ _ _ _ _ _ (present_pairOnAxis 1 1 3 2)).
  reflexivity.
Defined.

(** C4, as stated, fails: two particles whose scales are both zero, one
    unit apart and aligned, are connected. *)
Lemma zero_scales_counterexample :
  GetScale (InternalInputPolyData (pairOnAxis 0 0 1 2)) 0 = Some 0 /\
  GetScale (InternalInputPolyData (pairOnAxis 0 0 1 2)) 1 = Some 0 /\
  refEvaluate (pairOnAxis 0 0 1 2) 0 1 = Some true.
Proof. repeat split. Qed.

(** Scales [+0] and [-0]: the scale test lets the pair through. *)
Lemma zero_scales_witness :
  scaleRejects (pairOnAxis 0 (-0) 1 2) 0 (-0) = false /\
  refEvaluate (pairOnAxis 0 (-0) 1 2) 0 1 = Some true.
Proof.
  destruct (zero_scales_pass_scale_test refVectorMagnitude
              refAngleBetweenVectors _ _ _ _ _ _ _ _ _
              (present_pairOnAxis 0 (-0) 1 2) eq_refl eq_refl) as [R E].
  split; [exact R|]. unfold refEvaluate. rewrite E. reflexivity.
Defined.

(** The reference helpers meet the hypotheses of the symmetry theorem;
    the skew pair is connected in both orders. *)
Lemma evaluate_symmetric_witness :
  refEvaluate skewPair 0 1 = refEvaluate skewPair 1 0 /\
  refEvaluate skewPair 1 0 = Some true.
Proof.
  split; [|reflexivity].
  exact (evaluate_symmetric refVectorMagnitude refAngleBetweenVectors
           refVectorMagnitude_reversal
           (fun h p q => refAngleBetweenVectors_reversal h p q true)
           skewPair 0 1).
Defined.

(** *** Further properties of the test: the order of doubles *)

Lemma compare_cont_Eq (p q : positive) :
  Pos.compare_cont Eq p q = (p ?= q)%positive.
Proof. reflexivity. Qed.

Ltac order_cases :=
  rewrite ?compare_cont_Eq in *;
  repeat match goal with
         | H : context [(?a ?= ?b)%Z] |- _ =>
             destruct (Z.compare_spec a b); try discriminate
         | |- context [(?a ?= ?b)%Z] => destruct (Z.compare_spec a b)
         | H : context [(?a ?= ?b)%positive] |- _ =>
             destruct (Pos.compare_spec a b); try discriminate
         | |- context [(?a ?= ?b)%positive] => destruct (Pos.compare_spec a b)
         end;
  cbn [CompOpp] in *; try discriminate; try reflexivity; try (exfalso; lia).

(** [x <= y < z] gives [x < z]. *)
Lemma SFcompare_le_lt_trans (x y z : spec_float) :
  SFcompare x y = Some Lt \/ SFcompare x y = Some Eq ->
  SFcompare y z = Some Lt -> SFcompare x z = Some Lt.
Proof.
  destruct x as [sx|sx| |sx mx ex], y as [sy|sy| |sy my ey],
    z as [sz|sz| |sz mz ez]; cbn [SFcompare];
    intros [H|H] H'; try discriminate; try reflexivity;
    try (destruct sx; discriminate); try (destruct sy; discriminate);
    try (destruct sz; discriminate);
    try (destruct sx, sy; discriminate); try (destruct sy, sz; discriminate);
    try (destruct sx, sz; try discriminate; reflexivity);
    try (destruct sx, sy, sz; try discriminate; reflexivity).
  all: destruct sx, sy, sz; try discriminate; try reflexivity;
    injection H as H; injection H' as H'; f_equal; order_cases.
Qed.

(** A quantity that does not exceed a threshold does not exceed a larger
    one. *)
Lemma gtb_threshold_mono (x t t' : float) :
  (x >? t) = false -> (t <=? t') = true -> (x >? t') = false.
Proof.
  unfold gtb. rewrite !ltb_spec, leb_spec. unfold SFltb, SFleb.
  intros H L.
  destruct (SFcompare (Prim2SF t') (Prim2SF x)) as [[]|] eqn:E; trivial.
  rewrite (SFcompare_le_lt_trans (Prim2SF t) (Prim2SF t') (Prim2SF x)) in H;
    trivial.
  destruct (SFcompare (Prim2SF t) (Prim2SF t')) as [[]|]; auto; discriminate.
Qed.

(** Nothing exceeds plus infinity. *)
Lemma gtb_infinity (x : float) : (x >? infinity) = false.
Proof.
  unfold gtb. rewrite ltb_spec. unfold SFltb.
  change (Prim2SF infinity) with (S754_infinity false).
  destruct (Prim2SF x) as [s|s| |s m e]; try reflexivity. now destruct s.
Qed.

Section Further.

Variable GetVectorMagnitude : vec3 -> float.
Variable GetAngleBetweenVectors : vec3 -> vec3 -> bool -> float.

Local Abbreviation Evaluate :=
  (EvaluateParticleConnectedness GetVectorMagnitude GetAngleBetweenVectors).

(** X1: the reads are made in the order of the source.  When the scale
    test rejects, the answer is false without the points or the
    eigenvectors being read.  When it does not, the ["hevec2"] array is
    read before the distance test: without that array there is no answer,
    however far apart the particles are. *)
Theorem reads_in_source_order f i j s1 s2 :
  GetScale (InternalInputPolyData f) i = Some s1 ->
  GetScale (InternalInputPolyData f) j = Some s2 ->
  (scaleRejects f s1 s2 = true -> Evaluate f i j = Some false) /\
  (scaleRejects f s1 s2 = false ->
   hevec2Array (InternalInputPolyData f) = None -> Evaluate f i j = None).
Proof.
  intros H1 H2. unfold EvaluateParticleConnectedness, scaleRejects.
  cbv zeta. rewrite H1, H2. split; intros E; rewrite E; [reflexivity|].
  intros N. unfold GetHevec2. rewrite N.
  destruct (GetPoint _ i); [|reflexivity].
  destruct (GetPoint _ j); reflexivity.
Qed.

(** X2: raising the thresholds never disconnects a pair: a pair connected
    under the thresholds of [f] is connected under thresholds that are at
    least as large, on the same data. *)
Theorem looser_thresholds_keep_connected (f f' : Filter) (i j : nat) :
  looser f f' ->
  Evaluate f i j = Some true -> Evaluate f' i j = Some true.
Proof.
  intros (Hd & Hs & Hp & Ha). unfold EvaluateParticleConnectedness.
  cbv zeta. rewrite Hd. set (pd := InternalInputPolyData f).
  destruct (GetScale pd i) as [s1|], (GetScale pd j) as [s2|];
    try discriminate.
  destruct (scaleRatio s1 s2 >? ScaleRatioThreshold f) eqn:E1;
    [discriminate|].
  rewrite (gtb_threshold_mono _ _ _ E1 Hs).
  destruct (GetPoint pd i) as [p1|], (GetPoint pd j) as [p2|];
    try discriminate.
  destruct (GetHevec2 pd i) as [h1|], (GetHevec2 pd j) as [h2|];
    try discriminate.
  destruct (GetVectorMagnitude _ >? ParticleDistanceThreshold f) eqn:E2;
    [discriminate|].
  rewrite (gtb_threshold_mono _ _ _ E2 Hp).
  destruct (GetAngleBetweenVectors h1 _ _ >? ParticleAngleThreshold f)
    eqn:E3; [discriminate|].
  destruct (GetAngleBetweenVectors h2 _ _ >? ParticleAngleThreshold f)
    eqn:E4; [discriminate|].
  now rewrite (gtb_threshold_mono _ _ _ E3 Ha),
    (gtb_threshold_mono _ _ _ E4 Ha).
Qed.

(** X3: [SetScaleRatioThreshold] with plus infinity switches the scale
    test off: [GetScaleRatioThreshold] reads the value set, and the answer
    is the one the distance and angle tests give under the thresholds the
    filter had. *)
Theorem infinite_scale_threshold f i j s1 s2 p1 p2 h1 h2 :
  present f i j s1 s2 p1 p2 h1 h2 ->
  GetScaleRatioThreshold (SetScaleRatioThreshold f infinity) = infinity /\
  Evaluate (SetScaleRatioThreshold f infinity) i j =
  Some (negb (distanceRejects GetVectorMagnitude f p1 p2)
        && negb (angleRejects GetAngleBetweenVectors f h1 p1 p2
                 || angleRejects GetAngleBetweenVectors f h2 p1 p2)).
Proof.
  intros H. split; [reflexivity|].
  rewrite (evaluate_present _ _ (SetScaleRatioThreshold f infinity)
             i j s1 s2 p1 p2 h1 h2 H).
  unfold scaleRejects. cbn [SetScaleRatioThreshold ScaleRatioThreshold].
  now rewrite gtb_infinity.
Qed.

End Further.

(** The scales 1 and 3 differ by two thirds of the larger: rejected under
    the threshold one half although no eigenvector can be read; under the
    constructor's threshold the test has no answer. *)
Lemma reads_in_source_order_witness :
  refEvaluate (SetScaleRatioThreshold scalesOnly 0.5) 0 1 = Some false /\
  refEvaluate scalesOnly 0 1 = None.
Proof.
  split.
  - apply (reads_in_source_order refVectorMagnitude refAngleBetweenVectors
             (SetScaleRatioThreshold scalesOnly 0.5) 0 1 1 3
             eq_refl eq_refl).
    reflexivity.
  - apply (reads_in_source_order refVectorMagnitude refAngleBetweenVectors
             scalesOnly 0 1 1 3 eq_refl eq_refl); reflexivity.
Defined.

(** The pair connected under the distance threshold 2 stays connected
    under the distance threshold 5. *)
Lemma looser_thresholds_witness :
  looser (pairOnAxis 1 1 1 2) (pairOnAxis 1 1 1 5) /\
  refEvaluate (pairOnAxis 1 1 1 5) 0 1 = Some true.
Proof.
  assert (L : looser (pairOnAxis 1 1 1 2) (pairOnAxis 1 1 1 5))
    by (repeat split).
  split; [exact L|].
  apply (looser_thresholds_keep_connected refVectorMagnitude
           refAngleBetweenVectors _ _ 0 1 L).
  reflexivity.
Defined.

(** Scales 1 and -3 give the quotient 4, above the constructor's
    threshold; with the threshold at plus infinity the pair is
    connected. *)
Lemma infinite_scale_threshold_witness :
  refEvaluate (pairOnAxis 1 (-3) 1 2) 0 1 = Some false /\
  refEvaluate (SetScaleRatioThreshold (pairOnAxis 1 (-3) 1 2) infinity) 0 1
  = Some true.
Proof.
  split; [reflexivity|].
  destruct (infinite_scale_threshold refVectorMagnitude
              refAngleBetweenVectors _ _ _ _ _ _ _ _ _
              (present_pairOnAxis 1 (-3) 1 2)) as [_ E].
  unfold refEvaluate. rewrite E. reflexivity.
Defined.

End Connected.

(** ** LabelAirwayParticlesByGeneration *)

Module Labeler.

Import Double.
Open Scope Z_scope.

(** *** Characters, [unsigned int] and [std::string] *)

Definition NUL : ascii := "000"%char.
Definition newline : ascii := "010"%char.
Definition comma : ascii := ","%char.

(** [char wholeLine[100000]]. *)
Definition bufferSize : nat := Z.to_nat 100000.

(** Reduction to [unsigned int]. *)
Definition u32 (z : Z) : Z := z mod 2 ^ 32.

(** [std::string::npos], the largest [size_t]. *)
Definition npos : Z := 2 ^ 64 - 1.

(** The index of the first [c] in [s], the head of [s] being at index [k]. *)
Fixpoint find_from (c : ascii) (s : list ascii) (k : Z) : Z :=
  match s with
  | [] => npos
  | a :: tl => if Ascii.eqb a c then k else find_from c tl (k + 1)
  end.

(** [s.find(c, pos)]. *)
Definition find (s : list ascii) (c : ascii) (pos : Z) : Z :=
  if Z.of_nat (length s) <=? pos then npos
  else find_from c (skipn (Z.to_nat pos) s) pos.

(** [s.substr(pos, len)]: at most [len] characters from [pos] on.  The
    call throws when [pos] exceeds the size of [s]; every position the
    readers pass is a comma's index plus one, or zero (lemma
    [next_position_in_range]), so the model is total. *)
Definition substr (s : list ascii) (pos len : Z) : list ascii :=
  let tl := skipn (Z.to_nat pos) s in
  firstn (Z.to_nat (Z.min len (Z.of_nat (length tl)))) tl.

(** What a reader of [s.c_str()] sees: the characters before the first
    null character. *)
Fixpoint c_str (s : list ascii) : list ascii :=
  match s with
  | [] => []
  | a :: tl => if Ascii.eqb a NUL then [] else a :: c_str tl
  end.

(** [std::string strLine( wholeLine, 100000 )]: the whole array, the line
    just read, its terminator and whatever the array held before. *)
Definition strLine (wholeLine : list ascii) : list ascii :=
  firstn bufferSize wholeLine.

(** The idiom the readers repeat for every field but the first:
<<
  commaLocNew = strLine.find( ',', commaLocOld+1 );
  ... strLine.substr( commaLocOld+1, commaLocNew-commaLocOld-1).c_str() ...
  commaLocOld = commaLocNew;
>>
    It gives the new comma position and the text handed on. *)
Definition nextField (s : list ascii) (commaLocOld : Z) : Z * list ascii :=
  let commaLocNew := u32 (find s comma (u32 (commaLocOld + 1))) in
  (commaLocNew,
   c_str (substr s (u32 (commaLocOld + 1)) (u32 (commaLocNew - commaLocOld - 1)))).

(** *** [std::ifstream] and [getline] *)

Record ifstream := {
  rest : list ascii;    (* the characters not yet extracted *)
  eofbit : bool;
  failbit : bool
}.

(** Opening a file; [None] is a file that cannot be opened. *)
Definition open (content : option (list ascii)) : ifstream :=
  match content with
  | Some s => {| rest := s; eofbit := false; failbit := false |}
  | None => {| rest := []; eofbit := false; failbit := true |}
  end.

Definition good (f : ifstream) : bool := negb (eofbit f) && negb (failbit f).

(** Why an extraction stopped, in the order the tests are made. *)
Inductive stop := AtEof | AtDelim | AtLimit.

(** Characters are extracted and stored until the end of the file, a
    newline (extracted, not stored), or [room] characters are stored. *)
Fixpoint extract (room : nat) (inp : list ascii) {struct inp}
  : list ascii * list ascii * stop :=
  match inp with
  | [] => ([], [], AtEof)
  | c :: tl =>
      if Ascii.eqb c newline then ([], tl, AtDelim)
      else match room with
           | O => ([], inp, AtLimit)
           | S room' =>
               let '(l, r, st) := extract room' tl in (c :: l, r, st)
           end
  end.

(** Writing a line and its terminator at the start of the array. *)
Definition store (l wholeLine : list ascii) : list ascii :=
  l ++ NUL :: skipn (S (length l)) wholeLine.

(** [file.getline( wholeLine, 100000 )].  A stream that is not good
    extracts nothing and sets [failbit]; the terminator is stored all the
    same.  [failbit] is also set when the array is full or when nothing
    was extracted. *)
Definition getline (f : ifstream) (wholeLine : list ascii)
  : ifstream * list ascii :=
  if good f then
    let '(l, r, st) := extract (bufferSize - 1) (rest f) in
    let nothing := match l, st with [], AtEof | [], AtLimit => true
                                  | _, _ => false end in
    ({| rest := r;
        eofbit := match st with AtEof => true | _ => false end;
        failbit := match st with AtLimit => true | _ => nothing end |},
     store l wholeLine)
  else
    ({| rest := rest f; eofbit := eofbit f; failbit := true |},
     store [] wholeLine).

(** *** The calls made on the labelling filter

    The filter class is not among the files; a reader's effect is the
    sequence of setter calls it makes.  A chest type is an
    [unsigned char]. *)
Inductive call :=
| SetScaleStandardDeviation (cipType : Z) (std : float)
| SetDistanceStandardDeviation (cipType : Z) (std : float)
| SetAngleStandardDeviation (cipType : Z) (std : float)
| SetScaleMean (cipType : Z) (mean : float)
| SetDistanceMean (cipType : Z) (mean : float)
| SetAngleMean (cipType : Z) (mean : float)
| SetTransitionProbability (fromType toType : Z) (prob : float)
| SetNormalTransitionProbabilityMeansAndVariances
    (fromType toType : Z)
    (scaleDiffMean scaleDiffVar angleMean angleVar : float).

(** *** Text files

    Lines are ended by a newline, fields separated by commas. *)
Definition unlines (ls : list (list ascii)) : list ascii :=
  flat_map (fun l => l ++ [newline]) ls.

Fixpoint joinFields (fs : list (list ascii)) : list ascii :=
  match fs with
  | [] => []
  | [f] => f
  | f :: fs' => f ++ comma :: joinFields fs'
  end.

Definition chars (s : string) : list ascii := list_ascii_of_string s.

(** An array holding null characters. *)
Definition blank : list ascii := repeat NUL bufferSize.

(** A stream in the good state with [s] left to read. *)
Definition reading (s : list ascii) : ifstream :=
  {| rest := s; eofbit := false; failbit := false |}.

Abbreviation len s := (Z.of_nat (length s)).

(** [c] does not occur in [s]. *)
Definition without (c : ascii) (s : list ascii) : bool :=
  forallb (fun a => negb (Ascii.eqb a c)) s.

(** A field free of commas, null characters and newlines. *)
Definition cleanField (f : list ascii) : bool :=
  without comma f && without NUL f && without newline f.

(** A line that fits the array: no newline inside and fewer than 100000
    characters. *)
Definition shortLine (l : list ascii) : bool :=
  without newline l && (len l <? 100000).

(** A row as a line of text whose fields are clean and which fits the
    array. *)
Definition wellFormed (fields : list (list ascii)) : bool :=
  forallb cleanField fields && (len (joinFields fields) <? 100000).

(** What the array held before and still holds after the line. *)
Definition staleTail (l wholeLine : list ascii) : list ascii :=
  firstn (bufferSize - S (length l)) (skipn (S (length l)) wholeLine).

(** The texts of the next [n] fields, by [n] uses of the idiom. *)
Fixpoint walk (s : list ascii) (commaLocOld : Z) (n : nat)
  : list (list ascii) :=
  match n with
  | O => []
  | S n' =>
      let '(commaLocNew, text) := nextField s commaLocOld in
      text :: walk s commaLocNew n'
  end.

(** The rows of the two tabular files, field by field. *)
Record EmissionRecord := {
  e_name : list ascii;
  e_scaleDiffMean : list ascii; e_scaleDiffSTD : list ascii;
  e_distanceMean : list ascii; e_distanceSTD : list ascii;
  e_angleMean : list ascii; e_angleSTD : list ascii;
  e_numSamples : list ascii
}.

Definition emissionFields (r : EmissionRecord) : list (list ascii) :=
  [e_name r; e_scaleDiffMean r; e_scaleDiffSTD r; e_distanceMean r;
   e_distanceSTD r; e_angleMean r; e_angleSTD r; e_numSamples r].

Record StatsRecord := {
  s_fromTypeName : list ascii; s_toTypeName : list ascii;
  s_scaleDiffMean : list ascii; s_scaleDiffSTD : list ascii;
  s_angleMean : list ascii; s_angleSTD : list ascii;
  s_numSamples : list ascii
}.

Definition statsFields (r : StatsRecord) : list (list ascii) :=
  [s_fromTypeName r; s_toTypeName r; s_scaleDiffMean r; s_scaleDiffSTD r;
   s_angleMean r; s_angleSTD r; s_numSamples r].

Definition emissionLine (r : EmissionRecord) : list ascii :=
  joinFields (emissionFields r).

Definition statsLine (r : StatsRecord) : list ascii :=
  joinFields (statsFields r).

(** The indices [0 .. 10] of the generations, as the loops run through
    them; the type code of generation [i] is [i + 38]. *)
Definition generationIndices : list Z := map Z.of_nat (seq 0 11).

Section Readers.

(** The C library's [atof], and the two members of [ChestConventions]
    (cipConventions.h) the readers use. *)
Variable atof : list ascii -> float.
Variable GetChestTypeValueFromName : list ascii -> Z.
Variable GetNumberOfEnumeratedChestRegions : Z.

(** **** SetEmissionProbabilityStatsFromFile *)

(** The range test
    [int(cipType) > 0 && int(cipType) < conventions.GetNumberOfEnumeratedChestRegions()]. *)
Definition validType (cipType : Z) : bool :=
  (0 <? cipType) && (cipType <? GetNumberOfEnumeratedChestRegions).

(** The body of [if ( !file.eof() )]: the calls of one row and
    [keepChecking]. *)
Definition emissionRow (s : list ascii) : list call * bool :=
  let commaLocOld := 0 in
  let commaLocNew := u32 (find s comma 0) in
  let cipTypeName := c_str (substr s 0 (u32 (commaLocNew - commaLocOld + 1))) in
  let commaLocOld := commaLocNew in
  let '(commaLocOld, scaleDiffMean) := nextField s commaLocOld in
  let '(commaLocOld, scaleDiffSTD) := nextField s commaLocOld in
  let '(commaLocOld, distanceMean) := nextField s commaLocOld in
  let '(commaLocOld, distanceSTD) := nextField s commaLocOld in
  let '(commaLocOld, angleMean) := nextField s commaLocOld in
  let '(commaLocOld, angleSTD) := nextField s commaLocOld in
  let '(commaLocOld, numSamples) := nextField s commaLocOld in
  let cipType := GetChestTypeValueFromName cipTypeName in
  if validType cipType then
    ([SetScaleStandardDeviation cipType (atof scaleDiffSTD);
      SetDistanceStandardDeviation cipType (atof distanceSTD);
      SetAngleStandardDeviation cipType (atof angleSTD);
      SetScaleMean cipType (atof scaleDiffMean);
      SetDistanceMean cipType (atof distanceMean);
      SetAngleMean cipType (atof angleMean)], true)
  else ([], false).

(** The [do ... while ( !file.eof() && keepChecking )] loop.  [None] is
    a loop still running when the fuel is spent. *)
Fixpoint emissionLoop (fuel : nat) (file : ifstream) (wholeLine : list ascii)
  : option (list call) :=
  match fuel with
  | O => None
  | S fuel' =>
      let '(file, wholeLine) := getline file wholeLine in
      let '(calls, keepChecking) :=
        if negb (eofbit file) then emissionRow (strLine wholeLine)
        else ([], true) in
      if negb (eofbit file) && keepChecking
      then option_map (app calls) (emissionLoop fuel' file wholeLine)
      else Some calls
  end.

(** [wholeLine] is the indeterminate initial content of the array. *)
Definition SetEmissionProbabilityStatsFromFile
    (fuel : nat) (content : option (list ascii)) (wholeLine : list ascii)
  : option (list call) :=
  let file := open content in
  let '(file, wholeLine) := getline file wholeLine in   (* the header *)
  emissionLoop fuel file wholeLine.

(** **** SetTransitionProbabilitiesFromFile *)

(** The loop over [j] for the columns [1 .. 10] of one line. *)
Fixpoint transitionCells (s : list ascii) (fromType : Z) (js : list Z)
    (commaLocOld : Z) : list call :=
  match js with
  | [] => []
  | j :: js' =>
      let toType := j + 38 in
      let '(commaLocOld, text) := nextField s commaLocOld in
      SetTransitionProbability fromType toType (atof text)
        :: transitionCells s fromType js' commaLocOld
  end.

(** The loop over [j] for one line: column 0, then the others. *)
Definition transitionRow (s : list ascii) (fromType : Z) : list call :=
  let commaLocOld := 0 in
  let commaLocNew := u32 (find s comma 0) in
  let prob := atof (c_str (substr s 0 (u32 (commaLocNew - commaLocOld + 1)))) in
  SetTransitionProbability fromType (0 + 38) prob
    :: transitionCells s fromType (map Z.of_nat (seq 1 10)) commaLocNew.

(** The loop over [i]: a line is read and parsed whatever the state of
    the stream. *)
Fixpoint transitionRows (ixs : list Z) (file : ifstream)
    (wholeLine : list ascii) : list call :=
  match ixs with
  | [] => []
  | i :: ixs' =>
      let fromType := i + 38 in
      let '(file, wholeLine) := getline file wholeLine in
      transitionRow (strLine wholeLine) fromType
        ++ transitionRows ixs' file wholeLine
  end.

Definition SetTransitionProbabilitiesFromFile
    (content : option (list ascii)) (wholeLine : list ascii) : list call :=
  transitionRows (map Z.of_nat (seq 0 11)) (open content) wholeLine.

(** **** SetTransitionProbabilityStatsFromFile *)

Definition transitionStatsRow (s : list ascii) : list call :=
  let commaLocOld := 0 in
  let commaLocNew := u32 (find s comma 0) in
  let fromTypeName := c_str (substr s 0 (u32 (commaLocNew - commaLocOld))) in
  let commaLocOld := commaLocNew in
  let '(commaLocOld, toTypeName) := nextField s commaLocOld in
  let '(commaLocOld, scaleDiffMean) := nextField s commaLocOld in
  let '(commaLocOld, scaleDiffSTD) := nextField s commaLocOld in
  let '(commaLocOld, angleMean) := nextField s commaLocOld in
  let '(commaLocOld, angleSTD) := nextField s commaLocOld in
  let '(commaLocOld, numSamples) := nextField s commaLocOld in
  let fromType := GetChestTypeValueFromName fromTypeName in
  let toType := GetChestTypeValueFromName toTypeName in
  let scaleDiffVar := (atof scaleDiffSTD * atof scaleDiffSTD)%float in
  let angleVar := (atof angleSTD * atof angleSTD)%float in
  if (10 <? atof numSamples)%float then
    [SetNormalTransitionProbabilityMeansAndVariances fromType toType
       (atof scaleDiffMean) scaleDiffVar (atof angleMean) angleVar]
  else [].

(** The [do ... while ( !file.eof() )] loop. *)
Fixpoint transitionStatsLoop (fuel : nat) (file : ifstream)
    (wholeLine : list ascii) : option (list call) :=
  match fuel with
  | O => None
  | S fuel' =>
      let '(file, wholeLine) := getline file wholeLine in
      let calls :=
        if negb (eofbit file) then transitionStatsRow (strLine wholeLine)
        else [] in
      if negb (eofbit file)
      then option_map (app calls) (transitionStatsLoop fuel' file wholeLine)
      else Some calls
  end.

Definition SetTransitionProbabilityStatsFromFile
    (fuel : nat) (content : option (list ascii)) (wholeLine : list ascii)
  : option (list call) :=
  let file := open content in
  let '(file, wholeLine) := getline file wholeLine in   (* the header *)
  transitionStatsLoop fuel file wholeLine.

(** **** The loops seen line by line

    The calls of the rows read one after the other, the array being
    carried along.  The emission reader stops after a row that clears
    [keepChecking]; the transition statistics reader never stops. *)
Fixpoint emissionLines (rows : list (list ascii)) (wholeLine : list ascii)
  : list call :=
  match rows with
  | [] => []
  | r :: rows' =>
      let wholeLine := store r wholeLine in
      let '(calls, keepChecking) := emissionRow (strLine wholeLine) in
      if keepChecking then calls ++ emissionLines rows' wholeLine else calls
  end.

Fixpoint statsLines (rows : list (list ascii)) (wholeLine : list ascii)
  : list call :=
  match rows with
  | [] => []
  | r :: rows' =>
      let wholeLine := store r wholeLine in
      transitionStatsRow (strLine wholeLine) ++ statsLines rows' wholeLine
  end.

(** **** The calls of well-formed rows *)

(** The six calls of an emission row. *)
Definition emissionCalls (cipType : Z) (r : EmissionRecord) : list call :=
  [SetScaleStandardDeviation cipType (atof (e_scaleDiffSTD r));
   SetDistanceStandardDeviation cipType (atof (e_distanceSTD r));
   SetAngleStandardDeviation cipType (atof (e_angleSTD r));
   SetScaleMean cipType (atof (e_scaleDiffMean r));
   SetDistanceMean cipType (atof (e_distanceMean r));
   SetAngleMean cipType (atof (e_angleMean r))].

(** The calls of well-formed emission rows: the reader goes on while the
    name it looks up, the first field with its comma, gives a valid
    type. *)
Fixpoint emissionTrace (rs : list EmissionRecord) : list call :=
  match rs with
  | [] => []
  | r :: rs' =>
      let cipType := GetChestTypeValueFromName (e_name r ++ [comma]) in
      if validType cipType then emissionCalls cipType r ++ emissionTrace rs'
      else []
  end.

(** The call of a transition statistics row, made when the sample count
    is greater than 10. *)
Definition statsCalls (r : StatsRecord) : list call :=
  if (10 <? atof (s_numSamples r))%float then
    [SetNormalTransitionProbabilityMeansAndVariances
       (GetChestTypeValueFromName (s_fromTypeName r))
       (GetChestTypeValueFromName (s_toTypeName r))
       (atof (s_scaleDiffMean r))
       (atof (s_scaleDiffSTD r) * atof (s_scaleDiffSTD r))%float
       (atof (s_angleMean r))
       (atof (s_angleSTD r) * atof (s_angleSTD r))%float]
  else [].

(** The calls of one line of the transition probabilities file. *)
Definition cellCalls (fromType : Z) (js : list Z) (texts : list (list ascii))
  : list call :=
  map (fun jt => SetTransitionProbability fromType (fst jt + 38) (atof (snd jt)))
      (combine js texts).

(** The calls for a grid, row by row. *)
Definition gridCalls (grid : list (list (list ascii))) : list call :=
  flat_map (fun ir => cellCalls (fst ir + 38) generationIndices (snd ir))
           (combine generationIndices grid).

End Readers.

(** The pair of types a call sets the probability of. *)
Definition transitionKey (c : call) : option (Z * Z) :=
  match c with
  | SetTransitionProbability fromType toType _ => Some (fromType, toType)
  | _ => None
  end.

(** The 121 pairs of generation types, row by row. *)
Definition allTransitions : list (Z * Z) :=
  flat_map (fun i => map (fun j => (i + 38, j + 38)) generationIndices)
           generationIndices.

(** Modelled from the spec: the filter class is not among the files.  Its
    store maps a pair of types to "a direct probability value"; the value
    [SetTransitionProbability] sets last for the pair is the one returned
    in direct-probability mode. *)
Fixpoint storedTransitionProbability (trace : list call)
    (fromType toType : Z) : option float :=
  match trace with
  | [] => None
  | c :: tl =>
      match storedTransitionProbability tl fromType toType with
      | Some p => Some p
      | None =>
          match c with
          | SetTransitionProbability f t p =>
              if (f =? fromType) && (t =? toType) then Some p else None
          | _ => None
          end
      end
  end.

(** A grid of 11 rows of 11 clean fields, each row fitting the array. *)
Definition wellFormedGrid (grid : list (list (list ascii))) : bool :=
  (length grid =? 11)%nat
  && forallb (fun row => (length row =? 11)%nat && wellFormed row) grid.

(** *** The confusion matrix of the Dice report in [main] *)

(** Ten rows of ten zeros. *)
Definition confusionMatrix0 : list (list Z) := repeat (repeat 0 10%nat) 10%nat.

Fixpoint setNth {A : Type} (l : list A) (n : nat) (x : A) : list A :=
  match l, n with
  | [], _ => []
  | _ :: tl, O => x :: tl
  | a :: tl, S n' => a :: setNth tl n' x
  end.

(** [confusionMatrix[inType-38][outType-38] += 1] on [unsigned int]
    counters.  The subtraction is made on [int]; [None] is an index
    outside the vector, where [operator[]] has no defined behaviour. *)
Definition bump (m : list (list Z)) (inType outType : Z)
  : option (list (list Z)) :=
  let r := inType - 38 in
  let c := outType - 38 in
  if (0 <=? r) && (0 <=? c) then
    match nth_error m (Z.to_nat r) with
    | Some row =>
        match nth_error row (Z.to_nat c) with
        | Some n =>
            Some (setNth m (Z.to_nat r) (setNth row (Z.to_nat c) (u32 (n + 1))))
        | None => None
        end
    | None => None
    end
  else None.

(** The loop over the particles: the pairs are the input and the output
    [ChestType] of each particle. *)
Fixpoint confusionCounts (m : list (list Z)) (types : list (Z * Z))
  : option (list (list Z)) :=
  match types with
  | [] => Some m
  | (inType, outType) :: tl =>
      match bump m inType outType with
      | Some m' => confusionCounts m' tl
      | None => None
      end
  end.

Definition decimal (n : Z) : list ascii :=
  list_ascii_of_string (NilZero.string_of_uint (N.to_uint (Z.to_N n))).

Definition tab : ascii := "009"%char.

(** The two printing loops, [i < 10] and [j < 10]: each entry is followed
    by a tab and each row by a newline. *)
Definition printRow (m : list (list Z)) (i : nat) : list ascii :=
  flat_map (fun j => decimal (nth j (nth i m []) 0) ++ [tab]) (seq 0 10)
  ++ [newline].

Definition printConfusionMatrix (m : list (list Z)) : list ascii :=
  flat_map (printRow m) (seq 0 10).

Definition confusionTitle : list ascii :=
  list_ascii_of_string
    "----------------- Confusion Matrix -----------------------".

(** The report of [main] under [printDiceScores], the Dice lines left
    out: the title line and the matrix as text, or [None] when an index
    fell outside. *)
Definition confusionReport (types : list (Z * Z)) : option (list ascii) :=
  option_map (fun m => confusionTitle ++ newline :: printConfusionMatrix m)
             (confusionCounts confusionMatrix0 types).

(** *** Reference [atof] and conventions *)

Definition digit (c : ascii) : option Z :=
  let n := Z.of_N (N_of_ascii c) in
  if (48 <=? n) && (n <=? 57) then Some (n - 48) else None.

Fixpoint scanFraction (s : list ascii) (m e : Z) : Z * Z :=
  match s with
  | c :: tl =>
      match digit c with
      | Some d => scanFraction tl (10 * m + d) (e + 1)
      | None => (m, e)
      end
  | [] => (m, e)
  end.

Fixpoint scanInteger (s : list ascii) (m : Z) : Z * Z :=
  match s with
  | c :: tl =>
      match digit c with
      | Some d => scanInteger tl (10 * m + d)
      | None => if Ascii.eqb c "."%char then scanFraction tl m 0 else (m, 0)
      end
  | [] => (m, 0)
  end.

Definition floatOfZ (z : Z) : float := of_uint63 (Uint63.of_Z z).

(** A stand-in for the C library's [atof] on plain numerals: an optional
    minus sign, decimal digits and an optional fraction; reading stops at
    the first other character. *)
Definition refAtof (s : list ascii) : float :=
  let '(negative, digits) :=
    match s with
    | c :: tl => if Ascii.eqb c "-"%char then (true, tl) else (false, s)
    | [] => (false, s)
    end in
  let '(m, e) := scanInteger digits 0 in
  let v := (floatOfZ m / floatOfZ (10 ^ e))%float in
  if negative then (- v)%float else v.

(** Modelled from the spec: cipConventions.h is not among the files.  Its
    "fixed naming convention table" is taken to name the airway generation
    types by their enumerators, [AIRWAYGENERATION0] to
    [AIRWAYGENERATION10], with the codes [38 .. 48] the source uses for
    them. *)
Definition refChestTypeNames : list (list ascii * Z) :=
  map (fun i => (chars "AIRWAYGENERATION" ++ decimal i, i + 38))
      (map Z.of_nat (seq 0 11)).

Definition sameText (a b : list ascii) : bool :=
  String.eqb (string_of_list_ascii a) (string_of_list_ascii b).

(** Modelled from the spec: [GetChestTypeValueFromName] resolves a name
    through the table; an unknown name gives [UNDEFINEDTYPE], zero. *)
Definition refGetChestTypeValueFromName (name : list ascii) : Z :=
  match List.find (fun p => sameText (fst p) name) refChestTypeNames with
  | Some p => snd p
  | None => 0
  end.

(** Modelled from the spec: the number of enumerated chest regions, which
    the spec does not give; taken large enough for the codes [38 .. 48] to
    pass the emission reader's range test. *)
Definition refNumberOfEnumeratedChestRegions : Z := 64.

(** A table lookup that disregards a comma ending the name.  It lets the
    emission reader be run on rows that take effect. *)
Definition lenientGetChestTypeValueFromName (name : list ascii) : Z :=
  refGetChestTypeValueFromName
    (match List.rev name with
     | c :: tl => if Ascii.eqb c comma then List.rev tl else name
     | [] => name
     end).

(** *** Sample files and the readers on the reference helpers *)

Definition emissionHeader : list ascii :=
  chars "cipType,scaleDiffMean,scaleDiffSTD,distanceMean,distanceSTD,angleMean,angleSTD,numSamples".

Definition statsHeader : list ascii :=
  chars "fromType,toType,scaleDiffMean,scaleDiffSTD,angleMean,angleSTD,numSamples".

Definition statsRecord (from to m1 s1 m2 s2 n : string) : StatsRecord :=
  {| s_fromTypeName := chars from; s_toTypeName := chars to;
     s_scaleDiffMean := chars m1; s_scaleDiffSTD := chars s1;
     s_angleMean := chars m2; s_angleSTD := chars s2;
     s_numSamples := chars n |}.

(** Eleven rows: generation [i] goes to itself and to the next with
    probability one half, the last to itself. *)
Definition sampleGrid : list (list (list ascii)) :=
  map (fun i =>
         map (fun j => if (j =? i) || (j =? i + 1) then
                         (if i =? 10 then chars "1" else chars "0.5")
                       else chars "0")
             generationIndices)
      generationIndices.

Definition refSetEmission :=
  SetEmissionProbabilityStatsFromFile refAtof refGetChestTypeValueFromName
    refNumberOfEnumeratedChestRegions.

Definition lenientSetEmission :=
  SetEmissionProbabilityStatsFromFile refAtof lenientGetChestTypeValueFromName
    refNumberOfEnumeratedChestRegions.

Definition refSetStats :=
  SetTransitionProbabilityStatsFromFile refAtof refGetChestTypeValueFromName.

Definition refSetTransitions := SetTransitionProbabilitiesFromFile refAtof.

(** *** What the readers leave in the array *)

(** The line that [getline] finds and stores. *)
Definition lineRead (f : ifstream) : list ascii :=
  if good f then fst (fst (extract (bufferSize - 1) (rest f))) else [].

(** The array after the lines [ls] were read into it one after the
    other. *)
Definition bufferAfter (ls : list (list ascii)) (wholeLine : list ascii)
  : list ascii :=
  fold_left (fun w l => store l w) ls wholeLine.

(** The comma positions a reader goes through: the first search from 0,
    then [n] uses of the idiom. *)
Fixpoint commaPositions (s : list ascii) (commaLocOld : Z) (n : nat)
  : list Z :=
  match n with
  | O => [commaLocOld]
  | S n' => commaLocOld :: commaPositions s (fst (nextField s commaLocOld)) n'
  end.

(** *** The calls seen from the filter *)

(** The type an emission setter is called with. *)
Definition emissionCallType (c : call) : option Z :=
  match c with
  | SetScaleStandardDeviation t _ | SetDistanceStandardDeviation t _
  | SetAngleStandardDeviation t _ | SetScaleMean t _
  | SetDistanceMean t _ | SetAngleMean t _ => Some t
  | _ => None
  end.

(** The two variances of a call of the transition statistics reader. *)
Definition callVariances (c : call) : option (float * float) :=
  match c with
  | SetNormalTransitionProbabilityMeansAndVariances _ _ _ v1 _ v2 =>
      Some (v1, v2)
  | _ => None
  end.

(** The six calls of one type, in the order of the source. *)
Definition sixCalls (t : Z) (calls : list call) : Prop :=
  exists a b c d e f,
    calls = [SetScaleStandardDeviation t a; SetDistanceStandardDeviation t b;
             SetAngleStandardDeviation t c; SetScaleMean t d;
             SetDistanceMean t e; SetAngleMean t f].

(** A trace made of groups of six calls, each group for one type that
    passes the range test. *)
Inductive emissionGroups (GetNumberOfEnumeratedChestRegions : Z)
  : list call -> Prop :=
| groups_nil : emissionGroups GetNumberOfEnumeratedChestRegions []
| groups_cons t six tl :
    validType GetNumberOfEnumeratedChestRegions t = true ->
    sixCalls t six ->
    emissionGroups GetNumberOfEnumeratedChestRegions tl ->
    emissionGroups GetNumberOfEnumeratedChestRegions (six ++ tl).

(** A transition statistics row with its first field emptied. *)
Definition withoutFromName (r : StatsRecord) : StatsRecord :=
  {| s_fromTypeName := []; s_toTypeName := s_toTypeName r;
     s_scaleDiffMean := s_scaleDiffMean r; s_scaleDiffSTD := s_scaleDiffSTD r;
     s_angleMean := s_angleMean r; s_angleSTD := s_angleSTD r;
     s_numSamples := s_numSamples r |}.

(** *** Counting the particles *)

(** A label the matrix has a row and a column for. *)
Definition inMatrix (t : Z) : Prop := 38 <= t <= 47.

(** The number of particles whose pair of labels satisfies [p]. *)
Definition countPairs (p : Z * Z -> bool) (types : list (Z * Z)) : Z :=
  Z.of_nat (length (filter p types)).

(** [confusionMatrix[r][c]]. *)
Definition entry (m : list (list Z)) (r c : nat) : Z := nth c (nth r m []) 0.

(** *** The Dice scores of [main] *)

(** The three [std::map< unsigned char, unsigned int >]; [operator[]]
    gives 0 for a key not yet in the map. *)
Record counters := {
  intersectionCounter : Z -> Z;
  inTypeCounter : Z -> Z;
  outTypeCounter : Z -> Z
}.

Definition counters0 : counters :=
  {| intersectionCounter := fun _ => 0; inTypeCounter := fun _ => 0;
     outTypeCounter := fun _ => 0 |}.

(** [counter[key]++] on an [unsigned int]. *)
Definition increment (counter : Z -> Z) (key : Z) : Z -> Z :=
  fun k => if k =? key then u32 (counter k + 1) else counter k.

(** The three counters after one particle. *)
Definition tally (c : counters) (inType outType : Z) : counters :=
  {| intersectionCounter :=
       if inType =? outType then increment (intersectionCounter c) inType
       else intersectionCounter c;
     inTypeCounter := increment (inTypeCounter c) inType;
     outTypeCounter := increment (outTypeCounter c) outType |}.

(** The loop over the particles, the matrix and the counters together. *)
Fixpoint particleLoop (m : list (list Z)) (c : counters)
    (types : list (Z * Z)) : option (list (list Z) * counters) :=
  match types with
  | [] => Some (m, c)
  | (inType, outType) :: tl =>
      match bump m inType outType with
      | Some m' => particleLoop m' (tally c inType outType) tl
      | None => None
      end
  end.

(** The counters after all the particles. *)
Definition tallies (c : counters) (types : list (Z * Z)) : counters :=
  fold_left (fun c p => tally c (fst p) (snd p)) types c.

(** [static_cast< float >] of an [unsigned int], widened to [double]: the
    nearest number with a 24-bit significand. *)
Definition toFloat (n : Z) : float :=
  SF2Prim (binary_normalize 24 128 n 0 false).

(** One turn of the loop over [statesVec]: the state whose name is
    printed and its score, when [denom > 0.0]. *)
Definition diceLine (c : counters) (state : Z) : option (Z * float) :=
  let num := toFloat (intersectionCounter c state) in
  let denom1 := toFloat (inTypeCounter c state) in
  let denom2 := toFloat (outTypeCounter c state) in
  let denom := (denom1 + denom2)%float in
  if (0 <? denom)%float then Some (state, (2 * num / denom)%float) else None.

(** The loop over [statesVec]. *)
Definition diceLines (statesVec : list Z) (c : counters)
  : list (Z * float) :=
  flat_map (fun s => match diceLine c s with Some l => [l] | None => [] end)
           statesVec.

Definition emissionRecord (name m1 s1 m2 s2 m3 s3 n : string)
  : EmissionRecord :=
  {| e_name := chars name;
     e_scaleDiffMean := chars m1; e_scaleDiffSTD := chars s1;
     e_distanceMean := chars m2; e_distanceSTD := chars s2;
     e_angleMean := chars m3; e_angleSTD := chars s3;
     e_numSamples := chars n |}.

(** The labels of three particles before and after the labelling. *)
Definition sampleTypes : list (Z * Z) := [(38, 38); (47, 39); (38, 38)].

(** *** Searching and cutting strings *)

Lemma bufferSize_val : Z.of_nat bufferSize = 100000.
Proof. unfold bufferSize. lia. Qed.

Lemma u32_small (z : Z) : 0 <= z < 2 ^ 32 -> u32 z = z.
Proof. intros H. unfold u32. now apply Z.mod_small. Qed.

Lemma without_cons c a s :
  without c (a :: s) = negb (Ascii.eqb a c) && without c s.
Proof. reflexivity. Qed.

Lemma without_app c s t : without c (s ++ t) = without c s && without c t.
Proof. unfold without. apply forallb_app. Qed.

Lemma find_from_skip c pre rest k :
  without c pre = true ->
  find_from c (pre ++ rest) k = find_from c rest (k + len pre).
Proof.
  revert k. induction pre as [|a pre IH]; intros k H; simpl.
  - f_equal. lia.
  - rewrite without_cons in H. apply andb_prop in H as [Ha H].
    apply negb_true_iff in Ha. rewrite Ha, IH by assumption.
    f_equal. lia.
Qed.

Lemma find_from_hit c f post k :
  without c f = true ->
  find_from c (f ++ c :: post) k = k + len f.
Proof.
  intros H. rewrite find_from_skip by assumption. simpl.
  now rewrite Ascii.eqb_refl.
Qed.

Lemma find_from_range c s k :
  find_from c s k = npos \/ k <= find_from c s k < k + len s.
Proof.
  revert k. induction s as [|a s IH]; intros k; simpl; [now left|].
  destruct (Ascii.eqb a c); [right; lia|].
  destruct (IH (k + 1)) as [H|H]; [now left|right; lia].
Qed.

Lemma find_at pre rest c :
  find (pre ++ rest) c (len pre) = find_from c rest (len pre).
Proof.
  unfold find. rewrite length_app, Nat2Z.id, skipn_app, skipn_all, Nat.sub_diag.
  simpl. destruct (_ <=? _) eqn:E; [|reflexivity].
  apply Z.leb_le in E. destruct rest; [reflexivity|simpl in E; lia].
Qed.

Lemma c_str_clean f : without NUL f = true -> c_str f = f.
Proof.
  induction f as [|a f IH]; simpl; [reflexivity|]. intros H.
  apply andb_prop in H as [Ha H]. apply negb_true_iff in Ha.
  now rewrite Ha, IH.
Qed.

Lemma c_str_firstn f tail n :
  without NUL f = true -> (length f < n)%nat ->
  c_str (firstn n (f ++ NUL :: tail)) = f.
Proof.
  revert n. induction f as [|a f IH]; intros n H L; simpl in *.
  - destruct n; [lia|]. reflexivity.
  - destruct n; [lia|]. apply andb_prop in H as [Ha H].
    apply negb_true_iff in Ha. simpl. rewrite Ha, IH; trivial. lia.
Qed.

Lemma substr_at pre rest n :
  substr (pre ++ rest) (len pre) n =
  firstn (Z.to_nat (Z.min n (len rest))) rest.
Proof.
  unfold substr. now rewrite Nat2Z.id, skipn_app, skipn_all, Nat.sub_diag.
Qed.

Lemma substr_field pre f rest :
  substr (pre ++ f ++ rest) (len pre) (len f) = f.
Proof.
  rewrite substr_at, length_app, Z.min_l by lia.
  rewrite Nat2Z.id, firstn_app, Nat.sub_diag, firstn_all. simpl.
  apply app_nil_r.
Qed.

(** A field between two commas. *)
Lemma nextField_mid pre f post :
  without comma f = true -> without NUL f = true ->
  (length (pre ++ comma :: f ++ comma :: post) <= bufferSize)%nat ->
  nextField (pre ++ comma :: f ++ comma :: post) (len pre) =
  (len pre + 1 + len f, f).
Proof.
  intros Hc Hn L. rewrite !length_app in L. simpl in L.
  rewrite length_app in L. simpl in L.
  pose proof bufferSize_val as B.
  unfold nextField.
  rewrite (u32_small (len pre + 1)) by lia.
  replace (pre ++ comma :: f ++ comma :: post)
    with ((pre ++ [comma]) ++ f ++ comma :: post)
    by now rewrite <- app_assoc.
  replace (len pre + 1) with (len (pre ++ [comma]))
    by (rewrite length_app; simpl; lia).
  rewrite find_at, find_from_hit by assumption.
  rewrite (u32_small (len (pre ++ [comma]) + len f))
    by (rewrite length_app; simpl; lia).
  replace (u32 (len (pre ++ [comma]) + len f - len pre - 1)) with (len f)
    by (rewrite length_app, u32_small; simpl; lia).
  now rewrite substr_field, c_str_clean by assumption.
Qed.

(** The last field of a line: the search runs into what the array held
    before, or finds nothing; the terminator ends the text either way. *)
Lemma nextField_last pre f tail :
  without comma f = true -> without NUL f = true ->
  (length (pre ++ comma :: f ++ NUL :: tail) <= bufferSize)%nat ->
  snd (nextField (pre ++ comma :: f ++ NUL :: tail) (len pre)) = f.
Proof.
  intros Hc Hn L. rewrite !length_app in L. simpl in L.
  rewrite length_app in L. simpl in L.
  pose proof bufferSize_val as B.
  unfold nextField. cbn [snd].
  rewrite (u32_small (len pre + 1)) by lia.
  replace (pre ++ comma :: f ++ NUL :: tail)
    with ((pre ++ [comma]) ++ f ++ NUL :: tail)
    by now rewrite <- app_assoc.
  replace (len pre + 1) with (len (pre ++ [comma]))
    by (rewrite length_app; simpl; lia).
  rewrite find_at, substr_at.
  rewrite find_from_skip by assumption. simpl find_from.
  change (Ascii.eqb NUL comma) with false. cbv iota.
  apply c_str_firstn; [assumption|].
  rewrite !length_app. simpl length.
  match goal with |- context [find_from comma tail ?k] =>
    destruct (find_from_range comma tail k) as [E|E]; [rewrite E|] end.
  - change (u32 npos) with (2 ^ 32 - 1).
    rewrite u32_small by lia. lia.
  - rewrite (u32_small (find_from _ _ _)) by lia.
    rewrite u32_small by lia. lia.
Qed.

Lemma find_range s c pos :
  0 <= pos ->
  find s c pos = npos \/ pos <= find s c pos < len s.
Proof.
  intros Hp. unfold find. destruct (_ <=? _) eqn:E; [now left|].
  apply Z.leb_gt in E.
  destruct (find_from_range c (skipn (Z.to_nat pos) s) pos) as [H|H];
    [now left|right].
  rewrite length_skipn in H. lia.
Qed.

(** No [substr] of the readers throws: the position after a search
    result, reduced to [unsigned int], is within the string. *)
Lemma next_position_in_range s c pos :
  0 <= pos -> (length s <= bufferSize)%nat ->
  0 <= u32 (u32 (find s c pos) + 1) <= len s.
Proof.
  intros Hp L. pose proof bufferSize_val as B.
  destruct (find_range s c pos Hp) as [E|E].
  - rewrite E. change (u32 (u32 npos + 1)) with 0. lia.
  - rewrite (u32_small (find s c pos)), u32_small by lia. lia.
Qed.

Lemma first_comma name rest :
  without comma name = true ->
  (length (name ++ comma :: rest) <= bufferSize)%nat ->
  u32 (find (name ++ comma :: rest) comma 0) = len name.
Proof.
  intros H L. pose proof bufferSize_val as B.
  rewrite length_app in L. simpl in L.
  change 0 with (len (@nil ascii)) at 1.
  rewrite (find_at [] (name ++ comma :: rest)), find_from_hit by assumption.
  simpl. apply u32_small. lia.
Qed.

(** The first field as the emission and transition readers take it: with
    the comma that ends it. *)
Lemma first_field_with_comma name rest :
  without NUL name = true ->
  (length (name ++ comma :: rest) <= bufferSize)%nat ->
  c_str (substr (name ++ comma :: rest) 0 (u32 (len name - 0 + 1))) =
  name ++ [comma].
Proof.
  intros H L. pose proof bufferSize_val as B.
  rewrite length_app in L. simpl in L.
  rewrite u32_small by lia.
  replace (name ++ comma :: rest) with ([] ++ (name ++ [comma]) ++ rest)
    by (simpl; now rewrite <- app_assoc).
  replace (len name - 0 + 1) with (len (name ++ [comma]))
    by (rewrite length_app; simpl; lia).
  change 0 with (len (@nil ascii)).
  rewrite substr_field. apply c_str_clean.
  now rewrite without_app, H.
Qed.

(** The first field as the transition statistics reader takes it. *)
Lemma first_field_alone name rest :
  without NUL name = true ->
  (length (name ++ comma :: rest) <= bufferSize)%nat ->
  c_str (substr (name ++ comma :: rest) 0 (u32 (len name - 0))) = name.
Proof.
  intros H L. pose proof bufferSize_val as B.
  rewrite length_app in L. simpl in L.
  rewrite u32_small by lia.
  replace (name ++ comma :: rest) with ([] ++ name ++ comma :: rest)
    by reflexivity.
  replace (len name - 0) with (len name) by lia.
  change 0 with (len (@nil ascii)) at 1.
  rewrite substr_field. now apply c_str_clean.
Qed.

Lemma joinFields_cons f g fs :
  joinFields (f :: g :: fs) = f ++ comma :: joinFields (g :: fs).
Proof. reflexivity. Qed.

Lemma walk_fields fs pre tail :
  fs <> [] ->
  forallb cleanField fs = true ->
  (length (pre ++ comma :: joinFields fs ++ NUL :: tail) <= bufferSize)%nat ->
  walk (pre ++ comma :: joinFields fs ++ NUL :: tail) (len pre) (length fs)
  = fs.
Proof.
  revert pre. induction fs as [|f fs IH]; intros pre Hne Hc L;
    [congruence|].
  cbn [forallb] in Hc. apply andb_prop in Hc as [Hf Hc].
  unfold cleanField in Hf. apply andb_prop in Hf as [Hf _].
  apply andb_prop in Hf as [Hfc Hfn].
  destruct fs as [|g fs].
  - cbn [joinFields length walk].
    pose proof (nextField_last pre f tail Hfc Hfn L) as E.
    destruct (nextField _ _) as [c t]. simpl in E. now subst.
  - rewrite joinFields_cons in *. cbn [length walk].
    rewrite <- app_assoc in *. cbn [app] in *.
    rewrite (nextField_mid pre f _ Hfc Hfn L). f_equal.
    replace (pre ++ comma :: f ++ comma :: joinFields (g :: fs) ++ NUL :: tail)
      with ((pre ++ comma :: f) ++ comma :: joinFields (g :: fs) ++ NUL :: tail)
      in * by (rewrite <- app_assoc; reflexivity).
    replace (len pre + 1 + len f) with (len (pre ++ comma :: f))
      by (rewrite length_app; simpl; lia).
    apply IH; [discriminate|assumption|assumption].
Qed.

(** *** Lines *)

Lemma shortLine_length l : shortLine l = true -> (length l < bufferSize)%nat.
Proof.
  unfold shortLine. intros H. apply andb_prop in H as [_ H].
  apply Z.ltb_lt in H. pose proof bufferSize_val. lia.
Qed.

Lemma strLine_store l wholeLine :
  (length l < bufferSize)%nat ->
  strLine (store l wholeLine) = l ++ NUL :: staleTail l wholeLine.
Proof.
  intros L. unfold strLine, store, staleTail.
  rewrite firstn_app, firstn_all2 by lia. f_equal.
  destruct (bufferSize - length l)%nat as [|n] eqn:E; [lia|].
  cbn [firstn]. do 2 f_equal. lia.
Qed.

Lemma strLine_length wholeLine : (length (strLine wholeLine) <= bufferSize)%nat.
Proof. unfold strLine. apply firstn_le_length. Qed.

Lemma extract_line room l r :
  without newline l = true -> (length l <= room)%nat ->
  extract room (l ++ newline :: r) = (l, r, AtDelim).
Proof.
  revert room. induction l as [|a l IH]; intros room H L; cbn [app extract].
  - now rewrite Ascii.eqb_refl.
  - rewrite without_cons in H. apply andb_prop in H as [Ha H].
    apply negb_true_iff in Ha. rewrite Ha.
    destruct room as [|room]; [simpl in L; lia|].
    rewrite IH; [reflexivity|assumption|simpl in L; lia].
Qed.

Lemma extract_eof room l :
  without newline l = true -> (length l <= room)%nat ->
  extract room l = (l, [], AtEof).
Proof.
  revert room. induction l as [|a l IH]; intros room H L; cbn [app extract].
  - reflexivity.
  - rewrite without_cons in H. apply andb_prop in H as [Ha H].
    apply negb_true_iff in Ha. rewrite Ha.
    destruct room as [|room]; [simpl in L; lia|].
    rewrite IH; [reflexivity|assumption|simpl in L; lia].
Qed.

(** Reading a line that fits. *)
Lemma getline_line l r wholeLine :
  shortLine l = true ->
  getline (reading (l ++ newline :: r)) wholeLine =
  (reading r, store l wholeLine).
Proof.
  intros H. pose proof (shortLine_length l H) as L.
  unfold shortLine in H. apply andb_prop in H as [H _].
  unfold getline. cbn [good reading eofbit failbit rest negb andb].
  rewrite extract_line by (trivial; lia). now destruct l.
Qed.

(** Reading what is left when no newline ends it: the end-of-file flag
    is set. *)
Lemma getline_eof l wholeLine :
  shortLine l = true ->
  eofbit (fst (getline (reading l) wholeLine)) = true.
Proof.
  intros H. pose proof (shortLine_length l H) as L.
  unfold shortLine in H. apply andb_prop in H as [H _].
  unfold getline. cbn [good reading eofbit failbit rest negb andb].
  rewrite extract_eof by (trivial; lia). reflexivity.
Qed.

Section ReaderFacts.

Variable atof : list ascii -> float.
Variable GetChestTypeValueFromName : list ascii -> Z.
Variable GetNumberOfEnumeratedChestRegions : Z.

Local Abbreviation emissionRow' :=
  (emissionRow atof GetChestTypeValueFromName GetNumberOfEnumeratedChestRegions).
Local Abbreviation emissionLines' :=
  (emissionLines atof GetChestTypeValueFromName
     GetNumberOfEnumeratedChestRegions).
Local Abbreviation statsLines' :=
  (statsLines atof GetChestTypeValueFromName).
Local Abbreviation emissionLoop' :=
  (emissionLoop atof GetChestTypeValueFromName GetNumberOfEnumeratedChestRegions).
Local Abbreviation statsRow' :=
  (transitionStatsRow atof GetChestTypeValueFromName).
Local Abbreviation statsLoop' :=
  (transitionStatsLoop atof GetChestTypeValueFromName).

Lemma unlines_cons l ls tail :
  unlines (l :: ls) ++ tail = l ++ newline :: unlines ls ++ tail.
Proof. unfold unlines. cbn [flat_map]. now rewrite <- !app_assoc. Qed.

(** The emission loop over lines that fit, followed by a last line that
    no newline ends: the last line is read but not parsed. *)
Lemma emissionLoop_lines rows last wholeLine fuel :
  forallb shortLine rows = true -> shortLine last = true ->
  (length rows < fuel)%nat ->
  emissionLoop' fuel (reading (unlines rows ++ last)) wholeLine =
  Some (emissionLines' rows wholeLine).
Proof.
  revert wholeLine fuel.
  induction rows as [|r rows IH]; intros wholeLine fuel Hr Hl Hf;
    (destruct fuel as [|fuel]; [simpl in Hf; lia|]); cbn [emissionLoop].
  - cbn [unlines flat_map app].
    pose proof (getline_eof last wholeLine Hl) as E.
    destruct (getline _ _) as [file w]. cbn [fst] in E. now rewrite E.
  - cbn [forallb] in Hr. apply andb_prop in Hr as [Hr Hrs].
    rewrite unlines_cons, (getline_line _ _ _ Hr).
    cbn [reading eofbit negb andb emissionLines].
    destruct (emissionRow' _) as [calls keep]. destruct keep; [|reflexivity].
    rewrite IH; [reflexivity|assumption|assumption|simpl in Hf; lia].
Qed.

Lemma statsLoop_lines rows last wholeLine fuel :
  forallb shortLine rows = true -> shortLine last = true ->
  (length rows < fuel)%nat ->
  statsLoop' fuel (reading (unlines rows ++ last)) wholeLine =
  Some (statsLines' rows wholeLine).
Proof.
  revert wholeLine fuel.
  induction rows as [|r rows IH]; intros wholeLine fuel Hr Hl Hf;
    (destruct fuel as [|fuel]; [simpl in Hf; lia|]);
    cbn [transitionStatsLoop].
  - cbn [unlines flat_map app].
    pose proof (getline_eof last wholeLine Hl) as E.
    destruct (getline _ _) as [file w]. cbn [fst] in E. now rewrite E.
  - cbn [forallb] in Hr. apply andb_prop in Hr as [Hr Hrs].
    rewrite unlines_cons, (getline_line _ _ _ Hr).
    cbn [reading eofbit negb andb statsLines].
    rewrite IH; [reflexivity|assumption|assumption|simpl in Hf; lia].
Qed.

(** *** Rows *)

Local Abbreviation validType' := (validType GetNumberOfEnumeratedChestRegions).
Local Abbreviation emissionCalls' := (emissionCalls atof).
Local Abbreviation emissionTrace' :=
  (emissionTrace atof GetChestTypeValueFromName
     GetNumberOfEnumeratedChestRegions).
Local Abbreviation statsCalls' := (statsCalls atof GetChestTypeValueFromName).
Local Abbreviation cellCallsOf := (cellCalls atof).

Ltac split_list :=
  repeat match goal with
         | H : _ :: _ = _ :: _ |- _ => injection H as ? ?; subst
         end.

Ltac walk_step W :=
  match type of W with
  | context [nextField ?s ?c] => destruct (nextField s c) as [? ?]
  end.

Lemma wellFormed_split f fs :
  wellFormed (f :: fs) = true ->
  without comma f = true /\ without NUL f = true /\
  forallb cleanField fs = true /\
  (length (joinFields (f :: fs)) < bufferSize)%nat.
Proof.
  unfold wellFormed. cbn [forallb]. intros H.
  apply andb_prop in H as [H L]. apply andb_prop in H as [Hf Hfs].
  unfold cleanField in Hf. apply andb_prop in Hf as [Hf _].
  apply andb_prop in Hf as [Hc Hn]. apply Z.ltb_lt in L.
  pose proof bufferSize_val. repeat split; trivial. lia.
Qed.

(** The line in the array, split at its first comma. *)
Lemma strLine_row f g fs wholeLine :
  (length (joinFields (f :: g :: fs)) < bufferSize)%nat ->
  strLine (store (joinFields (f :: g :: fs)) wholeLine) =
  f ++ comma :: joinFields (g :: fs)
    ++ NUL :: staleTail (joinFields (f :: g :: fs)) wholeLine.
Proof.
  intros L. rewrite strLine_store by assumption.
  rewrite joinFields_cons at 1. now rewrite <- app_assoc.
Qed.

(** An emission row whose fields are clean: the type name looked up is
    the first field with its comma. *)
Lemma emissionRow_wellFormed r wholeLine :
  wellFormed (emissionFields r) = true ->
  emissionRow' (strLine (store (joinFields (emissionFields r)) wholeLine)) =
  let cipType := GetChestTypeValueFromName (e_name r ++ [comma]) in
  if validType' cipType then (emissionCalls' cipType r, true) else ([], false).
Proof.
  intros H. destruct (wellFormed_split _ _ H) as (Hc & Hn & Hfs & L).
  pose proof (strLine_length (store (joinFields (emissionFields r)) wholeLine))
    as B.
  unfold emissionFields in *. rewrite strLine_row in * by assumption.
  set (tail := staleTail _ _) in *.
  pose proof (fun ne => walk_fields _ (e_name r) tail ne Hfs B) as W.
  specialize (W ltac:(discriminate)).
  unfold emissionRow. cbv zeta.
  rewrite (first_comma _ _ Hc B), (first_field_with_comma _ _ Hn B).
  cbn [walk length] in W. do 7 walk_step W.
  split_list. reflexivity.
Qed.

Lemma statsRow_wellFormed r wholeLine :
  wellFormed (statsFields r) = true ->
  statsRow' (strLine (store (joinFields (statsFields r)) wholeLine)) =
  statsCalls' r.
Proof.
  intros H. destruct (wellFormed_split _ _ H) as (Hc & Hn & Hfs & L).
  pose proof (strLine_length (store (joinFields (statsFields r)) wholeLine))
    as B.
  unfold statsFields in *. rewrite strLine_row in * by assumption.
  set (tail := staleTail _ _) in *.
  pose proof (fun ne => walk_fields _ (s_fromTypeName r) tail ne Hfs B) as W.
  specialize (W ltac:(discriminate)).
  unfold transitionStatsRow. cbv zeta.
  rewrite (first_comma _ _ Hc B), (first_field_alone _ _ Hn B).
  cbn [walk length] in W. do 6 walk_step W.
  split_list. reflexivity.
Qed.

Lemma transitionCells_walk s fromType js commaLocOld :
  transitionCells atof s fromType js commaLocOld =
  cellCallsOf fromType js (walk s commaLocOld (length js)).
Proof.
  revert commaLocOld. induction js as [|j js IH]; intros c; [reflexivity|].
  cbn [transitionCells walk length]. destruct (nextField s c) as [c' t].
  unfold cellCalls. cbn [combine map fst snd]. f_equal. apply IH.
Qed.


(** *** Whole files *)

Local Abbreviation SetEmission :=
  (SetEmissionProbabilityStatsFromFile atof GetChestTypeValueFromName
     GetNumberOfEnumeratedChestRegions).
Local Abbreviation SetStats :=
  (SetTransitionProbabilityStatsFromFile atof GetChestTypeValueFromName).

Lemma open_reading s : open (Some s) = reading s.
Proof. reflexivity. Qed.

(** After the header, the emission reader runs through the lines ended
    by a newline; what follows the last newline is not parsed. *)
Lemma emission_file hdr rows last wholeLine fuel :
  shortLine hdr = true -> forallb shortLine rows = true ->
  shortLine last = true -> (length rows < fuel)%nat ->
  SetEmission fuel (Some (unlines (hdr :: rows) ++ last)) wholeLine =
  Some (emissionLines' rows (store hdr wholeLine)).
Proof.
  intros Hh Hr Hl Hf. unfold SetEmissionProbabilityStatsFromFile.
  rewrite open_reading, unlines_cons, (getline_line _ _ _ Hh).
  now apply emissionLoop_lines.
Qed.

Lemma stats_file hdr rows last wholeLine fuel :
  shortLine hdr = true -> forallb shortLine rows = true ->
  shortLine last = true -> (length rows < fuel)%nat ->
  SetStats fuel (Some (unlines (hdr :: rows) ++ last)) wholeLine =
  Some (statsLines' rows (store hdr wholeLine)).
Proof.
  intros Hh Hr Hl Hf. unfold SetTransitionProbabilityStatsFromFile.
  rewrite open_reading, unlines_cons, (getline_line _ _ _ Hh).
  now apply statsLoop_lines.
Qed.

Lemma without_joinFields c fs :
  Ascii.eqb comma c = false ->
  forallb (without c) fs = true -> without c (joinFields fs) = true.
Proof.
  intros Hc. induction fs as [|f fs IH]; [reflexivity|].
  cbn [forallb]. intros H. apply andb_prop in H as [Hf Hfs].
  destruct fs as [|g fs]; [exact Hf|].
  rewrite joinFields_cons, without_app, Hf, without_cons, Hc.
  now apply IH.
Qed.

Lemma wellFormed_shortLine fs :
  wellFormed fs = true -> shortLine (joinFields fs) = true.
Proof.
  unfold wellFormed, shortLine. intros H. apply andb_prop in H as [H L].
  rewrite L, andb_true_r. apply without_joinFields; [reflexivity|].
  rewrite forallb_forall in *. intros f Hf. specialize (H f Hf).
  unfold cleanField in H. now apply andb_prop in H as [_ H].
Qed.

Lemma shortLine_nil : shortLine [] = true.
Proof. reflexivity. Qed.

Lemma shortLines_map {A} (line : A -> list (list ascii)) (rs : list A) :
  forallb (fun r => wellFormed (line r)) rs = true ->
  forallb shortLine (map (fun r => joinFields (line r)) rs) = true.
Proof.
  induction rs as [|r rs IH]; [reflexivity|]. cbn [forallb map].
  intros H. apply andb_prop in H as [Hr Hrs].
  now rewrite (wellFormed_shortLine _ Hr), IH.
Qed.

(** The transition statistics reader on well-formed rows: every row
    gives its calls, whatever its type names resolve to. *)
Lemma statsLines_wellFormed rs wholeLine :
  forallb (fun r => wellFormed (statsFields r)) rs = true ->
  statsLines' (map (fun r => joinFields (statsFields r)) rs) wholeLine =
  flat_map statsCalls' rs.
Proof.
  revert wholeLine. induction rs as [|r rs IH]; intros w H; [reflexivity|].
  cbn [forallb] in H. apply andb_prop in H as [Hr Hrs].
  cbn [map statsLines flat_map].
  now rewrite (statsRow_wellFormed _ _ Hr), IH.
Qed.

Lemma emissionLines_wellFormed rs wholeLine :
  forallb (fun r => wellFormed (emissionFields r)) rs = true ->
  emissionLines' (map (fun r => joinFields (emissionFields r)) rs) wholeLine =
  emissionTrace' rs.
Proof.
  revert wholeLine. induction rs as [|r rs IH]; intros w H; [reflexivity|].
  cbn [forallb] in H. apply andb_prop in H as [Hr Hrs].
  cbn [map emissionLines emissionTrace].
  rewrite (emissionRow_wellFormed _ _ Hr). cbv zeta.
  destruct (validType' _); [|reflexivity]. now rewrite IH.
Qed.

(** A row that clears [keepChecking] makes no call. *)
Lemma emissionRow_rejected s :
  snd (emissionRow' s) = false -> fst (emissionRow' s) = [].
Proof.
  unfold emissionRow. cbv zeta.
  repeat match goal with
         | |- context [nextField ?s ?c] => destruct (nextField s c) as [? ?]
         end.
  now destruct (validType' _).
Qed.

(** A line with a comma is rejected when its first field, taken with the
    comma, does not resolve to a valid type. *)
Lemma emissionRow_key name more wholeLine :
  without comma name = true -> without NUL name = true ->
  (length (name ++ comma :: more) < bufferSize)%nat ->
  validType' (GetChestTypeValueFromName (name ++ [comma])) = false ->
  snd (emissionRow' (strLine (store (name ++ comma :: more) wholeLine)))
  = false.
Proof.
  intros Hc Hn L V.
  pose proof (strLine_length (store (name ++ comma :: more) wholeLine)) as B.
  rewrite strLine_store in * by assumption.
  rewrite <- app_assoc in *. cbn [app] in *.
  unfold emissionRow. cbv zeta.
  rewrite (first_comma _ _ Hc B), (first_field_with_comma _ _ Hn B), V.
  repeat match goal with
         | |- context [nextField ?s ?c] => destruct (nextField s c) as [? ?]
         end.
  reflexivity.
Qed.

(** Nothing after a rejected row takes effect. *)
Lemma emissionLines_stop before bad after wholeLine :
  (forall w, snd (emissionRow' (strLine (store bad w))) = false) ->
  emissionLines' (before ++ bad :: after) wholeLine =
  emissionLines' before wholeLine.
Proof.
  intros Hbad. revert wholeLine.
  induction before as [|r before IH]; intros w; cbn [app emissionLines].
  - pose proof (Hbad w) as R. pose proof (emissionRow_rejected _ R) as N.
    destruct (emissionRow' _) as [calls keep]. cbn [fst snd] in *.
    now subst.
  - destruct (emissionRow' _) as [calls keep].
    destruct keep; [|reflexivity]. now rewrite IH.
Qed.

End ReaderFacts.

(** *** The transition probabilities grid *)

Section Grid.

Variable atof : list ascii -> float.

Local Abbreviation transitionRow' := (transitionRow atof).
Local Abbreviation transitionRows' := (transitionRows atof).
Local Abbreviation cellCalls' := (cellCalls atof).

Lemma transitionCells_keys s fromType js c :
  map transitionKey (transitionCells atof s fromType js c) =
  map (fun j => Some (fromType, j + 38)) js.
Proof.
  revert c. induction js as [|j js IH]; intros c; [reflexivity|].
  cbn [transitionCells]. destruct (nextField s c) as [c' t].
  cbn [map transitionKey]. now rewrite IH.
Qed.

Lemma transitionRow_keys s fromType :
  map transitionKey (transitionRow' s fromType) =
  map (fun j => Some (fromType, j + 38)) generationIndices.
Proof.
  unfold transitionRow. cbv zeta. cbn [map transitionKey].
  now rewrite transitionCells_keys.
Qed.

Lemma transitionRows_keys ixs file wholeLine :
  map transitionKey (transitionRows' ixs file wholeLine) =
  flat_map (fun i => map (fun j => Some (i + 38, j + 38)) generationIndices)
           ixs.
Proof.
  revert file wholeLine.
  induction ixs as [|i ixs IH]; intros file w; [reflexivity|].
  cbn [transitionRows flat_map]. destruct (getline file w) as [file' w'].
  now rewrite map_app, transitionRow_keys, IH.
Qed.

(** [atof] stops reading at a comma. *)
Hypothesis atof_comma : forall f, atof (f ++ [comma]) = atof f.

Lemma transitionRow_wellFormed row wholeLine fromType :
  length row = 11%nat -> wellFormed row = true ->
  transitionRow' (strLine (store (joinFields row) wholeLine)) fromType =
  cellCalls' fromType generationIndices row.
Proof.
  intros N H. destruct row as [|f [|g fs]]; try discriminate.
  destruct (wellFormed_split _ _ H) as (Hc & Hn & Hfs & L).
  pose proof (strLine_length (store (joinFields (f :: g :: fs)) wholeLine))
    as B.
  rewrite strLine_row in * by assumption.
  set (tail := staleTail _ _) in *.
  pose proof (fun ne => walk_fields _ f tail ne Hfs B) as W.
  specialize (W ltac:(discriminate)).
  unfold transitionRow. cbv zeta.
  rewrite (first_comma _ _ Hc B), (first_field_with_comma _ _ Hn B).
  rewrite atof_comma, transitionCells_walk.
  replace (length (map Z.of_nat (seq 1 10))) with (length (g :: fs))
    by (simpl in N; simpl; lia).
  rewrite W. reflexivity.
Qed.

Lemma transitionRows_grid ixs grid rest wholeLine :
  length grid = length ixs ->
  forallb (fun row => (length row =? 11)%nat && wellFormed row) grid = true ->
  transitionRows' ixs (reading (unlines (map joinFields grid) ++ rest))
    wholeLine =
  flat_map (fun ir => cellCalls' (fst ir + 38) generationIndices (snd ir))
           (combine ixs grid).
Proof.
  revert grid wholeLine.
  induction ixs as [|i ixs IH]; intros [|row grid] w N H; try discriminate;
    [reflexivity|].
  cbn [forallb] in H. apply andb_prop in H as [Hr Hg].
  apply andb_prop in Hr as [Hn Hr]. apply Nat.eqb_eq in Hn.
  cbn [map transitionRows combine flat_map fst snd].
  rewrite unlines_cons, (getline_line _ _ _ (wellFormed_shortLine _ Hr)).
  rewrite (transitionRow_wellFormed _ _ _ Hn Hr). f_equal.
  apply IH; [simpl in N; lia|assumption].
Qed.

End Grid.

(** *** The readers on whole files *)

Section ReaderTheorems.

Variable atof : list ascii -> float.
Variable GetChestTypeValueFromName : list ascii -> Z.
Variable GetNumberOfEnumeratedChestRegions : Z.

Local Abbreviation emissionRow' :=
  (emissionRow atof GetChestTypeValueFromName GetNumberOfEnumeratedChestRegions).
Local Abbreviation emissionLines' :=
  (emissionLines atof GetChestTypeValueFromName
     GetNumberOfEnumeratedChestRegions).
Local Abbreviation statsCalls' := (statsCalls atof GetChestTypeValueFromName).
Local Abbreviation SetEmission :=
  (SetEmissionProbabilityStatsFromFile atof GetChestTypeValueFromName
     GetNumberOfEnumeratedChestRegions).
Local Abbreviation SetStats :=
  (SetTransitionProbabilityStatsFromFile atof GetChestTypeValueFromName).
Local Abbreviation SetTransitions :=
  (SetTransitionProbabilitiesFromFile atof).
Local Abbreviation emissionTrace' :=
  (emissionTrace atof GetChestTypeValueFromName
     GetNumberOfEnumeratedChestRegions).
Local Abbreviation validType' := (validType GetNumberOfEnumeratedChestRegions).
Local Abbreviation statsLoop' :=
  (transitionStatsLoop atof GetChestTypeValueFromName).

(** The transition statistics reader on a header and well-formed rows,
    each ended by a newline. *)
Lemma stats_trace hdr rs wholeLine fuel :
  shortLine hdr = true ->
  forallb (fun r => wellFormed (statsFields r)) rs = true ->
  (length rs < fuel)%nat ->
  SetStats fuel (Some (unlines (hdr :: map statsLine rs))) wholeLine =
  Some (flat_map statsCalls' rs).
Proof.
  intros Hh Hr Hf.
  rewrite <- (app_nil_r (unlines _)).
  rewrite (stats_file atof GetChestTypeValueFromName hdr _ [] wholeLine fuel);
    trivial.
  - unfold statsLine. now rewrite statsLines_wellFormed.
  - now apply shortLines_map.
  - now rewrite length_map.
Qed.

(** The emission reader on a header and well-formed rows, each ended by
    a newline. *)
Lemma emission_trace hdr rs wholeLine fuel :
  shortLine hdr = true ->
  forallb (fun r => wellFormed (emissionFields r)) rs = true ->
  (length rs < fuel)%nat ->
  SetEmission fuel (Some (unlines (hdr :: map emissionLine rs))) wholeLine =
  Some (emissionTrace' rs).
Proof.
  intros Hh Hr Hf.
  rewrite <- (app_nil_r (unlines _)).
  rewrite (emission_file atof GetChestTypeValueFromName
             GetNumberOfEnumeratedChestRegions hdr _ [] wholeLine fuel);
    trivial.
  - unfold emissionLine. now rewrite emissionLines_wellFormed.
  - now apply shortLines_map.
  - now rewrite length_map.
Qed.

(** When no name that ends with a comma resolves to a valid type, the
    emission reader sets nothing, whatever the rows. *)
Lemma emission_sets_nothing hdr rs wholeLine fuel :
  shortLine hdr = true ->
  forallb (fun r => wellFormed (emissionFields r)) rs = true ->
  (length rs < fuel)%nat ->
  (forall name,
     validType' (GetChestTypeValueFromName (name ++ [comma])) = false) ->
  SetEmission fuel (Some (unlines (hdr :: map emissionLine rs))) wholeLine =
  Some [].
Proof.
  intros Hh Hr Hf Hv. rewrite emission_trace by assumption. f_equal.
  destruct rs as [|r rs]; [reflexivity|].
  cbn [emissionTrace]. now rewrite Hv.
Qed.

(** A stream that failed without reaching the end of the file never
    leaves the loop of the transition statistics reader. *)
Lemma statsLoop_failed fuel s wholeLine :
  statsLoop' fuel {| rest := s; eofbit := false; failbit := true |} wholeLine
  = None.
Proof.
  revert wholeLine. induction fuel as [|fuel IH]; intros w; [reflexivity|].
  cbn [transitionStatsLoop getline good eofbit failbit negb andb rest].
  now rewrite IH.
Qed.

(** On a file that cannot be opened the transition statistics reader
    does not return. *)
Lemma stats_missing_file fuel wholeLine : SetStats fuel None wholeLine = None.
Proof.
  unfold SetTransitionProbabilityStatsFromFile.
  cbn [open getline good eofbit failbit negb andb rest].
  apply statsLoop_failed.
Qed.


(** C10.  What follows the last newline of an emission statistics file is
    read but never parsed: the calls are those of the rows that a newline
    ends, and the file with the last, unterminated row gives the same
    calls as the file without it. *)
Theorem unterminated_last_row_discarded hdr rows last wholeLine fuel :
  shortLine hdr = true -> forallb shortLine rows = true ->
  shortLine last = true -> (length rows < fuel)%nat ->
  SetEmission fuel (Some (unlines (hdr :: rows) ++ last)) wholeLine =
  SetEmission fuel (Some (unlines (hdr :: rows))) wholeLine
  /\
  SetEmission fuel (Some (unlines (hdr :: rows))) wholeLine =
  Some (emissionLines' rows (store hdr wholeLine)).
Proof.
  intros Hh Hr Hl Hf.
  assert (E : SetEmission fuel (Some (unlines (hdr :: rows))) wholeLine =
              Some (emissionLines' rows (store hdr wholeLine))).
  { rewrite <- (app_nil_r (unlines _)). now apply emission_file. }
  split; [|exact E]. rewrite E. now apply emission_file.
Qed.

(** C6 (amended).  The emission reader stops at a row that clears
    [keepChecking]: the rows after it make no call and the calls of the
    rows before it stand.  The transition probabilities reader makes its
    121 calls, one for each pair of generation types, whatever the file
    holds.  The transition statistics reader goes through every
    well-formed row, whatever its type names resolve to. *)
Theorem parse_truncation :
  (forall hdr before bad after wholeLine fuel,
     shortLine hdr = true ->
     forallb shortLine (before ++ bad :: after) = true ->
     (forall w, snd (emissionRow' (strLine (store bad w))) = false) ->
     (length (before ++ bad :: after) < fuel)%nat ->
     SetEmission fuel (Some (unlines (hdr :: before ++ bad :: after)))
       wholeLine =
     Some (emissionLines' before (store hdr wholeLine))
     /\
     SetEmission fuel (Some (unlines (hdr :: before))) wholeLine =
     Some (emissionLines' before (store hdr wholeLine)))
  /\
  (forall content wholeLine,
     map transitionKey (SetTransitions content wholeLine) =
     map Some allTransitions)
  /\
  (forall hdr rs wholeLine fuel,
     shortLine hdr = true ->
     forallb (fun r => wellFormed (statsFields r)) rs = true ->
     (length rs < fuel)%nat ->
     SetStats fuel (Some (unlines (hdr :: map statsLine rs))) wholeLine =
     Some (flat_map statsCalls' rs)).
Proof.
  split; [|split].
  - intros hdr before bad after wholeLine fuel Hh Hr Hbad Hf. split.
    + rewrite <- (app_nil_r (unlines _)).
      rewrite (emission_file atof GetChestTypeValueFromName
                 GetNumberOfEnumeratedChestRegions hdr _ [] wholeLine fuel);
        trivial.
      now rewrite emissionLines_stop.
    + rewrite <- (app_nil_r (unlines _)).
      apply emission_file; trivial.
      * rewrite forallb_app in Hr. now apply andb_prop in Hr as [Hr _].
      * rewrite length_app in Hf. lia.
  - intros content wholeLine. unfold SetTransitionProbabilitiesFromFile.
    rewrite transitionRows_keys. reflexivity.
  - intros. now apply stats_trace.
Qed.

End ReaderTheorems.

(** *** The store of direct transition probabilities *)

Lemma stored_in trace f t p :
  storedTransitionProbability trace f t = Some p ->
  In (SetTransitionProbability f t p) trace.
Proof.
  induction trace as [|c tl IH]; cbn [storedTransitionProbability];
    [discriminate|].
  destruct (storedTransitionProbability tl f t) as [q|].
  - intros [= ->]. right. now apply IH.
  - destruct c; try discriminate.
    destruct (fromType =? f) eqn:Ef, (toType =? t) eqn:Et; try discriminate.
    apply Z.eqb_eq in Ef, Et. subst. intros [= ->]. now left.
Qed.

Lemma stored_none trace f t p :
  storedTransitionProbability trace f t = None ->
  ~ In (SetTransitionProbability f t p) trace.
Proof.
  induction trace as [|c tl IH]; cbn [storedTransitionProbability In];
    [tauto|].
  destruct (storedTransitionProbability tl f t) as [q|]; [discriminate|].
  intros H [E|E]; [|now apply IH].
  subst c. now rewrite !Z.eqb_refl in H.
Qed.

(** A pair set once reads back the value set. *)
Lemma stored_unique trace f t p :
  In (SetTransitionProbability f t p) trace ->
  (forall q, In (SetTransitionProbability f t q) trace -> q = p) ->
  storedTransitionProbability trace f t = Some p.
Proof.
  intros Hin Hu.
  destruct (storedTransitionProbability trace f t) as [q|] eqn:E.
  - f_equal. apply Hu. now apply stored_in.
  - exfalso. now apply (stored_none _ _ _ p E).
Qed.

Lemma in_combine_indices {A} (l : list A) (n k m : nat) (x : A) :
  In (Z.of_nat m, x) (combine (map Z.of_nat (seq k n)) l) <->
  (k <= m < k + n)%nat /\ nth_error l (m - k) = Some x.
Proof.
  revert k l. induction n as [|n IH]; intros k l; cbn [seq map combine].
  - split; [intros []|lia].
  - destruct l as [|a l]; cbn [In].
    + split; [intros []|]. intros [_ H]. now destruct (m - k)%nat.
    + rewrite IH. split.
      * intros [E|[R H]].
        -- injection E as E ->. apply Nat2Z.inj in E. subst.
           rewrite Nat.sub_diag. split; [lia|reflexivity].
        -- split; [lia|]. replace (m - k)%nat with (S (m - S k)) by lia.
           exact H.
      * intros [R H]. destruct (Nat.eq_dec m k) as [->|N].
        -- left. rewrite Nat.sub_diag in H. now injection H as ->.
        -- right. split; [lia|].
           replace (m - k)%nat with (S (m - S k)) in H by lia. exact H.
Qed.

Section GridTheorem.

Variable atof : list ascii -> float.
Hypothesis atof_comma : forall f, atof (f ++ [comma]) = atof f.

Local Abbreviation SetTransitions :=
  (SetTransitionProbabilitiesFromFile atof).
Local Abbreviation gridCalls' := (gridCalls atof).

Lemma gridCalls_in grid i j p :
  In (SetTransitionProbability (Z.of_nat i + 38) (Z.of_nat j + 38) p)
     (gridCalls' grid) <->
  exists row t, nth_error grid i = Some row /\ nth_error row j = Some t /\
                (i < 11)%nat /\ (j < 11)%nat /\ p = atof t.
Proof.
  unfold gridCalls, cellCalls, generationIndices. rewrite in_flat_map. split.
  - intros ([i0 row] & Hi & Hc). cbn [fst snd] in Hc.
    apply in_map_iff in Hc as ([j0 t] & E & Hj). cbn [fst snd] in E.
    injection E as Ei Ej Ep.
    assert (i0 = Z.of_nat i) by lia. assert (j0 = Z.of_nat j) by lia. subst.
    apply in_combine_indices in Hi as [Ri Hi], Hj as [Rj Hj].
    rewrite Nat.sub_0_r in Hi, Hj. exists row, t. repeat split; trivial; lia.
  - intros (row & t & Hi & Hj & Ri & Rj & ->).
    exists (Z.of_nat i, row). split.
    + apply in_combine_indices. rewrite Nat.sub_0_r. split; [lia|trivial].
    + cbn [fst snd]. apply in_map_iff. exists (Z.of_nat j, t). split; trivial.
      apply in_combine_indices. rewrite Nat.sub_0_r. split; [lia|trivial].
Qed.

(** C7.  On a file of 11 lines of 11 well-formed fields, the transition
    probabilities reader makes 121 calls, one for each pair of generation
    types [(38 + i, 38 + j)] in row order, each with the value [atof]
    reads from the field in row [i] and column [j]; a store that keeps the
    value set for a pair then returns that value for the pair. *)
Theorem transition_grid grid wholeLine :
  wellFormedGrid grid = true ->
  map transitionKey
    (SetTransitions (Some (unlines (map joinFields grid))) wholeLine) =
  map Some allTransitions
  /\
  SetTransitions (Some (unlines (map joinFields grid))) wholeLine =
  gridCalls' grid
  /\
  forall i j : nat, (i < 11)%nat -> (j < 11)%nat ->
    storedTransitionProbability
      (SetTransitions (Some (unlines (map joinFields grid))) wholeLine)
      (Z.of_nat i + 38) (Z.of_nat j + 38) =
    Some (atof (nth j (nth i grid []) [])).
Proof.
  intros H. unfold wellFormedGrid in H. apply andb_prop in H as [N H].
  apply Nat.eqb_eq in N.
  assert (E : SetTransitions (Some (unlines (map joinFields grid))) wholeLine
              = gridCalls' grid).
  { unfold SetTransitionProbabilitiesFromFile.
    rewrite open_reading, <- (app_nil_r (unlines _)).
    now apply transitionRows_grid. }
  split; [|split; [exact E|]].
  - unfold SetTransitionProbabilitiesFromFile.
    rewrite transitionRows_keys. reflexivity.
  - intros i j Hi Hj. rewrite E.
    assert (Hrow : nth_error grid i = Some (nth i grid []))
      by (apply nth_error_nth'; lia).
    assert (L : length (nth i grid []) = 11%nat).
    { rewrite forallb_forall in H.
      specialize (H _ (nth_error_In _ _ Hrow)).
      apply andb_prop in H as [H _]. now apply Nat.eqb_eq in H. }
    assert (Hcell : nth_error (nth i grid []) j =
                    Some (nth j (nth i grid []) []))
      by (apply nth_error_nth'; lia).
    apply stored_unique.
    + apply gridCalls_in. eauto 10.
    + intros q Hq. apply gridCalls_in in Hq
        as (row & t & Hi' & Hj' & _ & _ & ->).
      rewrite Hrow in Hi'. injection Hi' as <-.
      rewrite Hcell in Hj'. now injection Hj' as <-.
Qed.

End GridTheorem.

(** The reference [atof] stops reading at a comma. *)
Lemma scanFraction_comma s m e :
  scanFraction (s ++ [comma]) m e = scanFraction s m e.
Proof.
  revert m e. induction s as [|c s IH]; intros m e; [reflexivity|].
  cbn [app scanFraction]. destruct (digit c); [apply IH|reflexivity].
Qed.

Lemma scanInteger_comma s m :
  scanInteger (s ++ [comma]) m = scanInteger s m.
Proof.
  revert m. induction s as [|c s IH]; intros m; [reflexivity|].
  cbn [app scanInteger]. destruct (digit c); [apply IH|].
  destruct (Ascii.eqb c "."); [apply scanFraction_comma|reflexivity].
Qed.

Lemma refAtof_comma f : refAtof (f ++ [comma]) = refAtof f.
Proof.
  unfold refAtof. destruct f as [|c f]; [reflexivity|]. cbn [app].
  destruct (Ascii.eqb c "-").
  - now rewrite scanInteger_comma.
  - now rewrite (scanInteger_comma (c :: f)).
Qed.

(** *** The confusion matrix *)

Lemma setNth_length {A} (l : list A) n x : length (setNth l n x) = length l.
Proof.
  revert n. induction l as [|a l IH]; intros [|n]; simpl; auto.
Qed.

Lemma setNth_map_length {A} (m : list (list A)) n row :
  nth_error m n = Some row ->
  forall row', length row' = length row ->
  map (@length A) (setNth m n row') = map (@length A) m.
Proof.
  revert n. induction m as [|a m IH]; intros [|n] H row' L; simpl in *;
    try discriminate.
  - injection H as ->. now rewrite L.
  - f_equal. now apply (IH n).
Qed.

(** Counting keeps the shape of the matrix. *)
Lemma bump_shape m inType outType m' :
  bump m inType outType = Some m' ->
  map (@length Z) m' = map (@length Z) m.
Proof.
  unfold bump. cbv zeta. destruct (_ && _); [|discriminate].
  destruct (nth_error m _) as [row|] eqn:Er; [|discriminate].
  destruct (nth_error row _) as [n|]; [|discriminate].
  intros [= <-]. apply (setNth_map_length _ _ _ Er), setNth_length.
Qed.

Lemma confusionCounts_shape types m m' :
  confusionCounts m types = Some m' ->
  map (@length Z) m' = map (@length Z) m.
Proof.
  revert m. induction types as [|[i o] types IH]; intros m;
    cbn [confusionCounts].
  - now intros [= ->].
  - destruct (bump m i o) as [m1|] eqn:E; [|discriminate].
    intros H. rewrite (IH _ H). now apply (bump_shape _ _ _ _ E).
Qed.

(** The matrix has ten rows of ten counters, whatever the particles. *)
Lemma confusionMatrix_shape types m :
  confusionCounts confusionMatrix0 types = Some m ->
  map (@length Z) m = repeat 10%nat 10.
Proof. intros H. now rewrite (confusionCounts_shape _ _ _ H). Qed.

(** A particle whose input label is generation 10 falls outside it. *)
Lemma bump_generation10 m outType :
  map (@length Z) m = repeat 10%nat 10 -> bump m 48 outType = None.
Proof.
  intros S. unfold bump. cbv zeta.
  assert (L : length m = 10%nat)
    by (rewrite <- (length_map (@length Z)), S; reflexivity).
  destruct (_ && _); [|reflexivity].
  replace (nth_error m (Z.to_nat (48 - 38))) with (@None (list Z));
    [reflexivity|].
  symmetry. apply nth_error_None. rewrite L. reflexivity.
Qed.

Lemma confusionCounts_generation10 before outType after :
  confusionCounts confusionMatrix0 (before ++ (48, outType) :: after) = None.
Proof.
  assert (G : forall m, map (@length Z) m = repeat 10%nat 10 ->
                confusionCounts m (before ++ (48, outType) :: after) = None).
  { induction before as [|[i o] before IH]; intros m S;
      cbn [app confusionCounts].
    - now rewrite bump_generation10.
    - destruct (bump m i o) as [m1|] eqn:E; [|reflexivity].
      apply IH. now rewrite (bump_shape _ _ _ _ E). }
  now apply G.
Qed.

(** *** The readers on sample files *)


(** With a lookup that accepts the name the reader forms, a terminated
    row takes effect and the unterminated row after it does not. *)
Lemma unterminated_last_row_witness :
  lenientSetEmission 2
    (Some (unlines [emissionHeader;
                    chars "AIRWAYGENERATION0,0.5,0.25,1.5,2,3,4,20"]
           ++ chars "AIRWAYGENERATION1,1,2,3,4,5,6,30"))
    blank =
  Some [SetScaleStandardDeviation 38 0.25; SetDistanceStandardDeviation 38 2;
        SetAngleStandardDeviation 38 4; SetScaleMean 38 0.5;
        SetDistanceMean 38 1.5; SetAngleMean 38 3].
Proof.
  unfold lenientSetEmission.
  destruct (unterminated_last_row_discarded refAtof
              lenientGetChestTypeValueFromName
              refNumberOfEnumeratedChestRegions emissionHeader
              [chars "AIRWAYGENERATION0,0.5,0.25,1.5,2,3,4,20"]
              (chars "AIRWAYGENERATION1,1,2,3,4,5,6,30") blank 2
              eq_refl eq_refl eq_refl ltac:(simpl; lia)) as [E1 E2].
  rewrite E1, E2. vm_compute. reflexivity.
Defined.

(** C6, as stated, fails for two of the three readers.  In a transition
    statistics file the row after one with unrecognised type names still
    takes effect; in a transition probabilities file the line after a
    malformed one still takes effect (the call for the pair [(39, 38)] is
    the twelfth, with the value of the second line's first field). *)
Lemma truncation_counterexample :
  refSetStats 3
    (Some (unlines
       [statsHeader;
        chars "FOO,BAR,1,2,3,4,50";
        chars "AIRWAYGENERATION0,AIRWAYGENERATION1,0.5,0.25,1.5,2,11"]))
    blank =
  Some [SetNormalTransitionProbabilityMeansAndVariances 0 0 1 4 3 16;
        SetNormalTransitionProbabilityMeansAndVariances 38 39 0.5 0.0625 1.5 4]
  /\
  nth_error
    (refSetTransitions
       (Some (unlines [chars "not a row of numbers";
                       chars "0.5,0.5,0,0,0,0,0,0,0,0,0"]))
       blank) 11 =
  Some (SetTransitionProbability 39 38 0.5).
Proof. split; vm_compute; reflexivity. Qed.

(** The emission reader, with a lookup that accepts the name it forms,
    stops at a row whose type is unknown: the row after it makes no
    call. *)
Lemma parse_truncation_witness :
  lenientSetEmission 4
    (Some (unlines
       (emissionHeader ::
        [chars "AIRWAYGENERATION0,0.5,0.25,1.5,2,3,4,20"]
        ++ chars "BOGUS,1,2,3,4,5,6,7"
        :: [chars "AIRWAYGENERATION1,1,2,3,4,5,6,30"])))
    blank =
  Some [SetScaleStandardDeviation 38 0.25; SetDistanceStandardDeviation 38 2;
        SetAngleStandardDeviation 38 4; SetScaleMean 38 0.5;
        SetDistanceMean 38 1.5; SetAngleMean 38 3].
Proof.
  unfold lenientSetEmission.
  destruct (parse_truncation refAtof lenientGetChestTypeValueFromName
              refNumberOfEnumeratedChestRegions) as [Stop _].
  destruct (Stop emissionHeader
              [chars "AIRWAYGENERATION0,0.5,0.25,1.5,2,3,4,20"]
              (chars "BOGUS,1,2,3,4,5,6,7")
              [chars "AIRWAYGENERATION1,1,2,3,4,5,6,30"] blank 4%nat
              eq_refl eq_refl) as [E _].
  - intros w.
    apply (emissionRow_key refAtof lenientGetChestTypeValueFromName
             refNumberOfEnumeratedChestRegions
             (chars "BOGUS") (chars "1,2,3,4,5,6,7") w);
      try reflexivity.
    pose proof bufferSize_val. simpl. lia.
  - simpl. lia.
  - rewrite E. vm_compute. reflexivity.
Defined.

(** The reference [atof] meets the hypothesis of the grid theorem; the
    probability one half that generation 1 stays generation 1 is stored
    for the pair [(39, 39)] and read back. *)
Lemma transition_grid_witness :
  wellFormedGrid sampleGrid = true /\
  storedTransitionProbability
    (refSetTransitions (Some (unlines (map joinFields sampleGrid))) blank)
    39 39 = Some 0.5%float.
Proof.
  split; [reflexivity|].
  exact (proj2 (proj2 (transition_grid refAtof refAtof_comma sampleGrid blank
                         eq_refl))
               1%nat 1%nat ltac:(lia) ltac:(lia)).
Defined.

(** C5: the emission reader on a file with one valid row.  The name
    [AIRWAYGENERATION0] resolves to the valid type 38, but the reader
    looks up the name with the comma after it, which the table does not
    hold, and sets nothing. *)
Theorem emission_name_keeps_comma :
  refGetChestTypeValueFromName (chars "AIRWAYGENERATION0") = 38 /\
  validType refNumberOfEnumeratedChestRegions 38 = true /\
  refGetChestTypeValueFromName (chars "AIRWAYGENERATION0,") = 0 /\
  refSetEmission 2
    (Some (unlines [emissionHeader;
                    chars "AIRWAYGENERATION0,0.5,0.25,1.5,2,3,4,20"]))
    blank = Some [].
Proof. repeat split; vm_compute; reflexivity. Qed.

(** C9: the confusion matrix has ten rows and ten columns, for the
    generations 0 to 9, and the report has the title line and ten lines;
    a particle labelled generation 10, type 48, falls outside the
    matrix. *)
Theorem confusion_matrix_is_ten_by_ten :
  option_map (fun m => (length m, map (@length Z) m))
    (confusionCounts confusionMatrix0 [(38, 38); (47, 39); (38, 38)]) =
  Some (10%nat, repeat 10%nat 10)
  /\
  option_map (fun text => length (filter (Ascii.eqb newline) text))
    (confusionReport [(38, 38); (47, 39); (38, 38)]) = Some 11%nat
  /\
  confusionReport [(38, 38); (48, 48)] = None.
Proof. repeat split; vm_compute; reflexivity. Qed.

(** *** The array and the searches *)

Lemma extract_stored room inp :
  (length (fst (fst (extract room inp))) <= room)%nat /\
  without newline (fst (fst (extract room inp))) = true.
Proof.
  revert room. induction inp as [|c tl IH]; intros room; cbn [extract].
  - cbn. split; [lia|reflexivity].
  - destruct (Ascii.eqb c newline) eqn:E; [cbn; split; [lia|reflexivity]|].
    destruct room as [|room]; [cbn; split; [lia|reflexivity]|].
    specialize (IH room). destruct (extract room tl) as [[l r] st].
    cbn [fst length] in *. rewrite without_cons, E. cbn. split; [lia|tauto].
Qed.

Lemma store_length l wholeLine :
  (length l < length wholeLine)%nat ->
  length (store l wholeLine) = length wholeLine.
Proof.
  intros L. unfold store. rewrite length_app. cbn [length].
  rewrite length_skipn. lia.
Qed.

Lemma getline_store f wholeLine :
  snd (getline f wholeLine) = store (lineRead f) wholeLine.
Proof.
  unfold getline, lineRead. destruct (good f); [|reflexivity].
  now destruct (extract _ _) as [[l r] st].
Qed.

(** X4: [getline] never writes past the end of the array: the array keeps its
    100000 characters, the line stored has at most 99999 of them and no
    newline, and a null character follows it. *)
Theorem getline_keeps_array (f : ifstream) (wholeLine : list ascii) :
  length wholeLine = bufferSize ->
  length (snd (getline f wholeLine)) = bufferSize /\
  (length (lineRead f) < bufferSize)%nat /\
  without newline (lineRead f) = true /\
  nth_error (snd (getline f wholeLine)) (length (lineRead f)) = Some NUL /\
  firstn (length (lineRead f)) (snd (getline f wholeLine)) = lineRead f.
Proof.
  intros L. rewrite getline_store.
  assert (B : (length (lineRead f) < bufferSize)%nat /\
              without newline (lineRead f) = true).
  { unfold lineRead. destruct (good f).
    - destruct (extract_stored (bufferSize - 1) (rest f)) as [H1 H2].
      split; [|exact H2]. pose proof bufferSize_val. lia.
    - split; [|reflexivity]. pose proof bufferSize_val. simpl. lia. }
  destruct B as [B1 B2]. repeat split; trivial.
  - rewrite store_length; lia.
  - unfold store. rewrite nth_error_app2, Nat.sub_diag by lia. reflexivity.
  - unfold store. rewrite firstn_app, Nat.sub_diag, firstn_all. cbn.
    apply app_nil_r.
Qed.

Lemma commaPositions_in_range s q n :
  0 <= q -> (length s <= bufferSize)%nat ->
  Forall (fun c => 0 <= u32 (c + 1) <= len s)
         (commaPositions s (u32 (find s comma q)) n).
Proof.
  intros Hq L. revert q Hq. induction n as [|n IH]; intros q Hq;
    cbn [commaPositions]; constructor;
    try apply (next_position_in_range s comma q Hq L); [constructor|].
  cbn [nextField fst]. apply IH. unfold u32. apply Z.mod_pos_bound. lia.
Qed.

(** X5: no [substr] of the readers throws [std::out_of_range]: on a string of
    at most 100000 characters, the position after each comma found (or
    after a failed search, which wraps to 0) lies within the string. *)
Theorem substr_positions_in_range (wholeLine : list ascii) (n : nat) :
  Forall (fun c => 0 <= u32 (c + 1) <= len (strLine wholeLine))
         (commaPositions (strLine wholeLine)
            (u32 (find (strLine wholeLine) comma 0)) n).
Proof.
  apply commaPositions_in_range; [lia|apply strLine_length].
Qed.

(** *** What the readers do on any file *)

(** A square is not negative, whatever its rounding. *)
Lemma SFmul_square_sign (x : spec_float) :
  SFltb (SFmul prec emax x x) (S754_zero false) = false.
Proof.
  destruct x as [s|s| |s m e]; cbn [SFmul]; try reflexivity.
  - now destruct s.
  - replace (xorb s s) with false by now destruct s.
    unfold binary_round_aux.
    destruct (shr_fexp prec emax _ _ _) as [mrs e'].
    destruct (shr_fexp prec emax _ e' loc_Exact) as [mrs' e''].
    destruct (shr_m mrs'); try reflexivity.
    destruct (e'' <=? emax - prec)%Z; reflexivity.
Qed.

Lemma square_not_negative (x : float) : (x * x <? 0)%float = false.
Proof.
  rewrite ltb_spec, mul_spec. apply SFmul_square_sign.
Qed.

Section ReaderInvariants.
Variable atof : list ascii -> float.
Variable GetChestTypeValueFromName : list ascii -> Z.
Variable GetNumberOfEnumeratedChestRegions : Z.

Local Abbreviation emissionRow' :=
  (emissionRow atof GetChestTypeValueFromName GetNumberOfEnumeratedChestRegions).
Local Abbreviation emissionLoop' :=
  (emissionLoop atof GetChestTypeValueFromName GetNumberOfEnumeratedChestRegions).
Local Abbreviation statsRow' :=
  (transitionStatsRow atof GetChestTypeValueFromName).
Local Abbreviation statsLoop' :=
  (transitionStatsLoop atof GetChestTypeValueFromName).
Local Abbreviation SetEmission :=
  (SetEmissionProbabilityStatsFromFile atof GetChestTypeValueFromName
     GetNumberOfEnumeratedChestRegions).
Local Abbreviation SetStats :=
  (SetTransitionProbabilityStatsFromFile atof GetChestTypeValueFromName).
Local Abbreviation validType' := (validType GetNumberOfEnumeratedChestRegions).
Local Abbreviation emissionGroups' :=
  (emissionGroups GetNumberOfEnumeratedChestRegions).

Lemma emissionRow_groups s :
  (fst (emissionRow' s) = [] /\ snd (emissionRow' s) = false) \/
  (exists t, validType' t = true /\ sixCalls t (fst (emissionRow' s)) /\
             snd (emissionRow' s) = true).
Proof.
  unfold emissionRow. cbv zeta.
  repeat match goal with
         | |- context [nextField ?s ?c] => destruct (nextField s c) as [? ?]
         end.
  destruct (validType _ _) eqn:E; [right|left; now split].
  eexists. split; [exact E|]. split; [|reflexivity].
  cbn [fst]. unfold sixCalls. repeat eexists.
Qed.

Lemma emissionLoop_groups fuel file wholeLine trace :
  emissionLoop' fuel file wholeLine = Some trace -> emissionGroups' trace.
Proof.
  revert file wholeLine trace.
  induction fuel as [|fuel IH]; intros file wholeLine trace; [discriminate|].
  cbn [emissionLoop]. destruct (getline file wholeLine) as [file' wl'].
  destruct (eofbit file'); cbn [negb andb].
  { intros [= <-]. constructor. }
  destruct (emissionRow_groups (strLine wl')) as [[H1 H2]|(t & Hv & H6 & H2)];
    destruct (emissionRow' (strLine wl')) as [calls keep]; cbn [fst snd] in *;
    subst keep.
  - intros [= <-]. subst. constructor.
  - destruct (emissionLoop' fuel file' wl') as [tl|] eqn:E; [|discriminate].
    intros [= <-]. apply (groups_cons _ t); trivial. now apply IH in E.
Qed.

Lemma emissionGroups_types trace :
  emissionGroups' trace ->
  Forall (fun c => exists t, emissionCallType c = Some t /\ validType' t = true)
         trace /\
  (length trace mod 6 = 0)%nat.
Proof.
  induction 1 as [|t six tl Hv (a & b & c & d & e & f & ->) _ [IH1 IH2]].
  - split; [constructor|reflexivity].
  - split.
    + cbn [app]. repeat (constructor; [now exists t|]). exact IH1.
    + cbn [app length] in *.
      replace (S (S (S (S (S (S (length tl)))))))%nat
        with (length tl + 1 * 6)%nat by lia.
      now rewrite Nat.Div0.mod_add.
Qed.

(** X6: the emission reader on a header and rows of clean fields.  Each
    row whose name, looked up with the comma after it, gives a valid type
    sets the three standard deviations and then the three means of that
    type from its columns; the first row that does not ends the reading.
    The header's text, the sample counts, what the array held before and
    a last line that no newline ends play no part. *)
Theorem emission_reader_calls (hdr : list ascii) (rs : list EmissionRecord)
    (last wholeLine : list ascii) (fuel : nat) :
  shortLine hdr = true ->
  forallb (fun r => wellFormed (emissionFields r)) rs = true ->
  shortLine last = true ->
  (length rs < fuel)%nat ->
  SetEmission fuel (Some (unlines (hdr :: map emissionLine rs) ++ last))
    wholeLine =
  Some (emissionTrace atof GetChestTypeValueFromName
          GetNumberOfEnumeratedChestRegions rs).
Proof.
  intros Hh Hw Hl F.
  rewrite (emission_file atof GetChestTypeValueFromName
             GetNumberOfEnumeratedChestRegions hdr _ last wholeLine fuel);
    trivial.
  - unfold emissionLine. now rewrite emissionLines_wellFormed.
  - now apply shortLines_map.
  - now rewrite length_map.
Qed.

(** X7: whatever the file holds, the emission reader only sets statistics
    of types that passed the range test, and always the six of a type
    together, the three standard deviations before the three means. *)
Theorem emission_calls_valid (fuel : nat) (content : option (list ascii))
    (wholeLine : list ascii) (trace : list call) :
  SetEmission fuel content wholeLine = Some trace ->
  emissionGroups' trace /\
  Forall (fun c => exists t, emissionCallType c = Some t /\ validType' t = true)
         trace /\
  (length trace mod 6 = 0)%nat.
Proof.
  unfold SetEmissionProbabilityStatsFromFile.
  destruct (getline (open content) wholeLine) as [file wl]. intros H.
  apply emissionLoop_groups in H. split; [exact H|].
  now apply emissionGroups_types.
Qed.

Lemma statsRow_variances s :
  Forall (fun c => exists v1 v2, callVariances c = Some (v1, v2) /\
                   (v1 <? 0)%float = false /\ (v2 <? 0)%float = false)
         (statsRow' s).
Proof.
  unfold transitionStatsRow. cbv zeta.
  repeat match goal with
         | |- context [nextField ?s ?c] => destruct (nextField s c) as [? ?]
         end.
  destruct (_ <? _)%float; constructor; [|constructor].
  do 2 eexists. split; [reflexivity|]. split; apply square_not_negative.
Qed.

Lemma statsLoop_variances fuel file wholeLine trace :
  statsLoop' fuel file wholeLine = Some trace ->
  Forall (fun c => exists v1 v2, callVariances c = Some (v1, v2) /\
                   (v1 <? 0)%float = false /\ (v2 <? 0)%float = false)
         trace.
Proof.
  revert file wholeLine trace.
  induction fuel as [|fuel IH]; intros file wholeLine trace; [discriminate|].
  cbn [transitionStatsLoop]. destruct (getline file wholeLine) as [file' wl'].
  destruct (eofbit file'); cbn [negb].
  { intros [= <-]. constructor. }
  destruct (statsLoop' fuel file' wl') as [tl|] eqn:E; [|discriminate].
  intros [= <-]. apply Forall_app. split; [apply statsRow_variances|].
  now apply IH in E.
Qed.

(** X8: whatever the file holds, the transition statistics reader only
    calls [SetNormalTransitionProbabilityMeansAndVariances], and no
    variance it passes is negative: a negative standard deviation in the
    file is squared like any other. *)
Theorem stats_variances_not_negative (fuel : nat)
    (content : option (list ascii)) (wholeLine : list ascii)
    (trace : list call) :
  SetStats fuel content wholeLine = Some trace ->
  Forall (fun c => exists v1 v2, callVariances c = Some (v1, v2) /\
                   (v1 <? 0)%float = false /\ (v2 <? 0)%float = false)
         trace.
Proof.
  unfold SetTransitionProbabilityStatsFromFile.
  destruct (getline (open content) wholeLine) as [file wl].
  apply statsLoop_variances.
Qed.

End ReaderInvariants.

(** *** Streams that fail and lines that are missing *)

Lemma c_str_substr_nul t n : c_str (substr (NUL :: t) 0 n) = [].
Proof.
  unfold substr. cbn [Z.to_nat skipn].
  destruct (Z.to_nat _); reflexivity.
Qed.

Lemma strLine_blankLine wholeLine :
  strLine (store [] wholeLine) =
  NUL :: firstn (bufferSize - 1) (skipn 1 wholeLine).
Proof.
  unfold strLine, store. cbn [app length].
  pose proof bufferSize_val.
  destruct bufferSize as [|n] eqn:E; [lia|].
  replace (S n - 1)%nat with n by lia. reflexivity.
Qed.

Lemma store_blank_twice wholeLine :
  store [] (store [] wholeLine) = store [] wholeLine.
Proof. reflexivity. Qed.

Lemma extract_limit room l r :
  without newline l = true -> (room < length l)%nat ->
  extract room (l ++ r) = (firstn room l, skipn room l ++ r, AtLimit).
Proof.
  revert room. induction l as [|c l IH]; intros room H L; [simpl in L; lia|].
  rewrite without_cons in H. apply andb_prop in H as [Hc H].
  apply negb_true_iff in Hc. cbn [app extract]. rewrite Hc.
  destruct room as [|room]; [reflexivity|].
  rewrite IH by (simpl in L; trivial; lia). reflexivity.
Qed.

Section FailingStreams.
Variable atof : list ascii -> float.
Variable GetChestTypeValueFromName : list ascii -> Z.
Variable GetNumberOfEnumeratedChestRegions : Z.

Local Abbreviation emissionRow' :=
  (emissionRow atof GetChestTypeValueFromName GetNumberOfEnumeratedChestRegions).
Local Abbreviation emissionLoop' :=
  (emissionLoop atof GetChestTypeValueFromName GetNumberOfEnumeratedChestRegions).
Local Abbreviation statsLoop' :=
  (transitionStatsLoop atof GetChestTypeValueFromName).
Local Abbreviation SetEmission :=
  (SetEmissionProbabilityStatsFromFile atof GetChestTypeValueFromName
     GetNumberOfEnumeratedChestRegions).
Local Abbreviation SetStats :=
  (SetTransitionProbabilityStatsFromFile atof GetChestTypeValueFromName).
Local Abbreviation SetTransitions :=
  (SetTransitionProbabilitiesFromFile atof).
Local Abbreviation validType' := (validType GetNumberOfEnumeratedChestRegions).
Local Abbreviation transitionRow' := (transitionRow atof).
Local Abbreviation transitionRows' := (transitionRows atof).

Lemma emissionRow_blankLine wholeLine :
  validType' (GetChestTypeValueFromName []) = false ->
  emissionRow' (strLine (store [] wholeLine)) = ([], false).
Proof.
  intros H. rewrite strLine_blankLine. unfold emissionRow. cbv zeta.
  repeat match goal with
         | |- context [nextField ?s ?c] => destruct (nextField s c) as [? ?]
         end.
  now rewrite c_str_substr_nul, H.
Qed.

Lemma transitionRow_blankLine wholeLine fromType :
  transitionRow' (strLine (store [] wholeLine)) fromType =
  SetTransitionProbability fromType 38 (atof [])
    :: transitionCells atof (strLine (store [] wholeLine)) fromType
         (map Z.of_nat (seq 1 10))
         (u32 (find (strLine (store [] wholeLine)) comma 0)).
Proof.
  unfold transitionRow. cbv zeta. f_equal.
  rewrite strLine_blankLine at 1. now rewrite c_str_substr_nul.
Qed.

(** Once the stream is not good, every further row is parsed from the
    array as the last successful read left it, behind a null character. *)
Lemma transitionRows_stuck ixs file wholeLine :
  good file = false ->
  transitionRows' ixs file wholeLine =
  flat_map (fun i => transitionRow' (strLine (store [] wholeLine)) (i + 38)) ixs.
Proof.
  intros G. revert file wholeLine G.
  induction ixs as [|i ixs IH]; intros file wholeLine G; [reflexivity|].
  cbn [transitionRows flat_map]. unfold getline at 1. rewrite G. f_equal.
  rewrite IH by (unfold good; cbn; apply andb_false_r).
  now rewrite store_blank_twice.
Qed.

(** X9: a file that cannot be opened is not reported by any reader.  The
    emission reader returns without a call when the empty name has no
    valid type; the transition statistics reader never returns; the
    transition probabilities reader makes its 121 calls from what the
    array happens to hold behind a null character, the same values for
    each of the eleven rows, column 0 getting [atof] of the empty text. *)
Theorem unopenable_files (wholeLine : list ascii) :
  (validType' (GetChestTypeValueFromName []) = false ->
   forall fuel, SetEmission (S fuel) None wholeLine = Some [])
  /\
  (forall fuel, SetStats fuel None wholeLine = None)
  /\
  SetTransitions None wholeLine =
  flat_map (fun i =>
      SetTransitionProbability (i + 38) 38 (atof [])
        :: transitionCells atof (strLine (store [] wholeLine)) (i + 38)
             (map Z.of_nat (seq 1 10))
             (u32 (find (strLine (store [] wholeLine)) comma 0)))
    generationIndices.
Proof.
  split; [|split].
  - intros H fuel. unfold SetEmissionProbabilityStatsFromFile.
    cbn [open]. unfold getline at 1. cbn [good eofbit failbit negb andb].
    cbn [emissionLoop]. unfold getline at 1.
    cbn [good eofbit failbit negb andb].
    rewrite store_blank_twice, emissionRow_blankLine by exact H.
    reflexivity.
  - intros fuel. unfold SetTransitionProbabilityStatsFromFile.
    cbn [open]. unfold getline at 1. cbn [good eofbit failbit negb andb].
    apply statsLoop_failed.
  - unfold SetTransitionProbabilitiesFromFile.
    rewrite transitionRows_stuck by reflexivity.
    apply flat_map_ext. intros i. apply transitionRow_blankLine.
Qed.

Lemma statsLoop_rows_then_never rows tail :
  forallb shortLine rows = true ->
  (forall fuel w, statsLoop' fuel (reading tail) w = None) ->
  forall fuel w, statsLoop' fuel (reading (unlines rows ++ tail)) w = None.
Proof.
  intros S T. induction rows as [|r rows IH]; intros fuel w; [apply T|].
  cbn [forallb] in S. apply andb_prop in S as [Sr S].
  destruct fuel as [|fuel]; [reflexivity|].
  cbn [transitionStatsLoop]. rewrite unlines_cons, getline_line by exact Sr.
  cbn [reading eofbit negb]. fold (reading (unlines rows ++ tail)).
  now rewrite IH.
Qed.

(** X10: a line of 100000 characters or more makes the transition
    statistics reader loop for ever: [getline] fills the array and sets [failbit],
    after which the end of the file is never reached. *)
Theorem stats_overlong_line_never_returns
    (hdr : list ascii) (rows : list (list ascii)) (long after : list ascii)
    (wholeLine : list ascii) (fuel : nat) :
  shortLine hdr = true -> forallb shortLine rows = true ->
  without newline long = true -> (bufferSize <= length long)%nat ->
  SetStats fuel (Some (unlines (hdr :: rows) ++ long ++ after)) wholeLine
  = None.
Proof.
  intros Hh Hr Hl L. unfold SetTransitionProbabilityStatsFromFile.
  rewrite open_reading, unlines_cons, getline_line by exact Hh.
  apply statsLoop_rows_then_never; [exact Hr|]. clear fuel.
  intros [|fuel] w; [reflexivity|]. cbn [transitionStatsLoop].
  unfold getline at 1. cbn [reading good rest eofbit failbit negb andb].
  pose proof bufferSize_val as B.
  rewrite extract_limit by (trivial; lia).
  cbn [eofbit negb]. now rewrite statsLoop_failed.
Qed.

(** X18: an empty line ends the emission reader.  When the empty name has
    no valid type, the rows of clean fields before the empty line are set
    and nothing after it is read. *)
Theorem emission_blank_line_stops (hdr : list ascii)
    (before : list EmissionRecord) (after : list (list ascii))
    (wholeLine : list ascii) (fuel : nat) :
  validType' (GetChestTypeValueFromName []) = false ->
  shortLine hdr = true ->
  forallb (fun r => wellFormed (emissionFields r)) before = true ->
  forallb shortLine after = true ->
  (length before + length after + 1 < fuel)%nat ->
  SetEmission fuel
    (Some (unlines (hdr :: map emissionLine before ++ [] :: after)))
    wholeLine =
  Some (emissionTrace atof GetChestTypeValueFromName
          GetNumberOfEnumeratedChestRegions before).
Proof.
  intros Hv Hh Hb Ha F.
  rewrite <- (app_nil_r (unlines _)).
  rewrite (emission_file atof GetChestTypeValueFromName
             GetNumberOfEnumeratedChestRegions hdr _ [] wholeLine fuel).
  - rewrite emissionLines_stop.
    + unfold emissionLine. now rewrite emissionLines_wellFormed.
    + intros w. now rewrite emissionRow_blankLine.
  - exact Hh.
  - rewrite forallb_app. cbn [forallb]. unfold emissionLine.
    now rewrite shortLines_map, shortLine_nil, Ha.
  - apply shortLine_nil.
  - rewrite length_app, length_map. cbn [length]. lia.
Qed.

End FailingStreams.

(** *** What an empty read leaves in the array *)

Lemma c_str_substr_nul_app p t n : c_str (substr ((NUL :: p) ++ t) 0 n) = [].
Proof. apply c_str_substr_nul. Qed.

(** The array after an empty read that follows the line [a :: l]: the
    null character takes the place of [a], the rest of the line stays. *)
Lemma strLine_blank_after a l wholeLine :
  (length (a :: l) < bufferSize)%nat ->
  strLine (store [] (store (a :: l) wholeLine)) =
  NUL :: l ++ NUL :: staleTail (a :: l) wholeLine.
Proof.
  intros L. pose proof (strLine_store (a :: l) wholeLine L) as E.
  unfold strLine, store in *. cbn [app length skipn] in *.
  destruct bufferSize as [|n]; [simpl in L; lia|].
  cbn [firstn] in *. injection E as E. now rewrite E.
Qed.

Lemma joinFields_head a f g fs :
  joinFields ((a :: f) :: g :: fs) = a :: joinFields (f :: g :: fs).
Proof. reflexivity. Qed.

Section StaleArray.
Variable atof : list ascii -> float.
Variable GetChestTypeValueFromName : list ascii -> Z.

Local Abbreviation statsRow' :=
  (transitionStatsRow atof GetChestTypeValueFromName).
Local Abbreviation statsLines' := (statsLines atof GetChestTypeValueFromName).
Local Abbreviation statsCalls' := (statsCalls atof GetChestTypeValueFromName).
Local Abbreviation SetStats :=
  (SetTransitionProbabilityStatsFromFile atof GetChestTypeValueFromName).
Local Abbreviation SetTransitions :=
  (SetTransitionProbabilitiesFromFile atof).
Local Abbreviation transitionRow' := (transitionRow atof).
Local Abbreviation transitionRows' := (transitionRows atof).
Local Abbreviation cellCalls' := (cellCalls atof).

Lemma row_blank_after a f g fs wholeLine :
  (length (joinFields ((a :: f) :: g :: fs)) < bufferSize)%nat ->
  strLine (store [] (store (joinFields ((a :: f) :: g :: fs)) wholeLine)) =
  (NUL :: f) ++ comma :: joinFields (g :: fs)
    ++ NUL :: staleTail (joinFields ((a :: f) :: g :: fs)) wholeLine.
Proof.
  intros L. rewrite joinFields_head in *.
  rewrite strLine_blank_after by exact L.
  rewrite joinFields_cons. cbn [app]. now rewrite <- app_assoc.
Qed.

Lemma statsRow_blank_after r a name wholeLine :
  s_fromTypeName r = a :: name ->
  wellFormed (statsFields r) = true ->
  statsRow' (strLine (store [] (store (statsLine r) wholeLine))) =
  statsCalls' (withoutFromName r).
Proof.
  intros N H. destruct (wellFormed_split _ _ H) as (Hc & Hn & Hfs & L).
  pose proof (strLine_length
                (store [] (store (joinFields (statsFields r)) wholeLine))) as B.
  unfold statsLine, statsFields in *. rewrite N in *.
  rewrite row_blank_after in * by assumption.
  set (tail := staleTail _ _) in *.
  assert (Hc' : without comma (NUL :: name) = true).
  { rewrite without_cons in *. apply andb_prop in Hc as [_ Hc].
    now rewrite Hc. }
  pose proof (fun ne => walk_fields _ (NUL :: name) tail ne Hfs B) as W.
  specialize (W ltac:(discriminate)).
  unfold transitionStatsRow. cbv zeta.
  rewrite (first_comma _ _ Hc' B).
  rewrite c_str_substr_nul_app.
  set (pre := NUL :: name) in *.
  cbn [walk length] in W.
  repeat match type of W with
  | context [nextField ?s ?c] => destruct (nextField s c) as [? ?]
  end.
  repeat match goal with
         | H : _ :: _ = _ :: _ |- _ => injection H as ? ?; subst
         end.
  reflexivity.
Qed.

Lemma statsLines_app l1 l2 wholeLine :
  statsLines' (l1 ++ l2) wholeLine =
  statsLines' l1 wholeLine ++ statsLines' l2 (bufferAfter l1 wholeLine).
Proof.
  revert wholeLine. induction l1 as [|l l1 IH]; intros w; [reflexivity|].
  cbn [app statsLines bufferAfter fold_left]. cbv zeta.
  rewrite IH, <- app_assoc. reflexivity.
Qed.

Lemma bufferAfter_last ls l wholeLine :
  bufferAfter (ls ++ [l]) wholeLine = store l (bufferAfter ls wholeLine).
Proof. unfold bufferAfter. now rewrite fold_left_app. Qed.

(** X11: an empty line in the transition statistics file is not skipped: the
    reader parses what the row before it left in the array, so that row
    is counted a second time, its origin type looked up from the empty
    name.  The rows after the empty line are read as usual. *)
Theorem stats_blank_line_repeats_row
    (hdr : list ascii) (before after : list StatsRecord) (r : StatsRecord)
    (a : ascii) (name : list ascii) (wholeLine : list ascii) (fuel : nat) :
  shortLine hdr = true ->
  forallb (fun r => wellFormed (statsFields r)) (before ++ r :: after) = true ->
  s_fromTypeName r = a :: name ->
  (length before + length after + 2 < fuel)%nat ->
  SetStats fuel
    (Some (unlines (hdr :: map statsLine (before ++ [r])
                        ++ [] :: map statsLine after)))
    wholeLine =
  Some (flat_map statsCalls' before ++ statsCalls' r
        ++ statsCalls' (withoutFromName r) ++ flat_map statsCalls' after).
Proof.
  intros Hh Hw N F.
  rewrite forallb_app in Hw. apply andb_prop in Hw as [Hb Hw].
  cbn [forallb] in Hw. apply andb_prop in Hw as [Hr Ha].
  assert (Hbr : forallb (fun r => wellFormed (statsFields r)) (before ++ [r])
                = true).
  { rewrite forallb_app, Hb. cbn. now rewrite Hr. }
  rewrite <- (app_nil_r (unlines _)).
  rewrite stats_file.
  - f_equal. rewrite statsLines_app.
    unfold statsLine at 1. rewrite statsLines_wellFormed by exact Hbr.
    rewrite flat_map_app. cbn [flat_map]. rewrite app_nil_r, <- app_assoc.
    f_equal. f_equal.
    cbn [statsLines]. cbv zeta. rewrite map_app. cbn [map].
    rewrite bufferAfter_last.
    rewrite (statsRow_blank_after r a name) by assumption. f_equal.
    unfold statsLine. now rewrite statsLines_wellFormed.
  - exact Hh.
  - rewrite forallb_app. cbn [forallb].
    unfold statsLine. rewrite !shortLines_map by assumption.
    rewrite shortLine_nil. reflexivity.
  - apply shortLine_nil.
  - rewrite length_app, !length_map, length_app. cbn [length].
    rewrite length_map. lia.
Qed.

Lemma transitionRow_blank_after a f row wholeLine fromType :
  length ((a :: f) :: row) = 11%nat -> wellFormed ((a :: f) :: row) = true ->
  transitionRow' (strLine (store [] (store (joinFields ((a :: f) :: row))
                                       wholeLine))) fromType =
  cellCalls' fromType generationIndices ([] :: row).
Proof.
  intros N H. destruct row as [|g fs]; try discriminate.
  destruct (wellFormed_split _ _ H) as (Hc & Hn & Hfs & L).
  pose proof (strLine_length
                (store [] (store (joinFields ((a :: f) :: g :: fs)) wholeLine)))
    as B.
  rewrite row_blank_after in * by assumption.
  set (tail := staleTail _ _) in *.
  assert (Hc' : without comma (NUL :: f) = true).
  { rewrite without_cons in *. apply andb_prop in Hc as [_ Hc].
    now rewrite Hc. }
  pose proof (fun ne => walk_fields _ (NUL :: f) tail ne Hfs B) as W.
  specialize (W ltac:(discriminate)).
  unfold transitionRow. cbv zeta.
  rewrite (first_comma _ _ Hc' B).
  rewrite c_str_substr_nul_app.
  set (pre := NUL :: f) in *.
  rewrite transitionCells_walk.
  replace (length (map Z.of_nat (seq 1 10))) with (length (g :: fs))
    by (simpl in N; simpl; lia).
  cbn [length] in W |- *. rewrite W. reflexivity.
Qed.

Lemma transitionRows_exhausted ixs wholeLine :
  transitionRows' ixs (reading []) wholeLine =
  flat_map (fun i => transitionRow' (strLine (store [] wholeLine)) (i + 38)) ixs.
Proof.
  destruct ixs as [|i ixs]; [reflexivity|].
  cbn [transitionRows flat_map]. unfold getline at 1.
  cbn [reading good rest eofbit failbit negb andb extract].
  f_equal. now rewrite transitionRows_stuck by reflexivity.
Qed.

Hypothesis atof_comma : forall f, atof (f ++ [comma]) = atof f.

Lemma transitionRows_prefix ixs more grid tail wholeLine :
  length grid = length ixs ->
  forallb (fun row => (length row =? 11)%nat && wellFormed row) grid = true ->
  transitionRows' (ixs ++ more)
    (reading (unlines (map joinFields grid) ++ tail)) wholeLine =
  flat_map (fun ir => cellCalls' (fst ir + 38) generationIndices (snd ir))
           (combine ixs grid)
  ++ transitionRows' more (reading tail)
       (bufferAfter (map joinFields grid) wholeLine).
Proof.
  revert grid wholeLine.
  induction ixs as [|i ixs IH]; intros [|row grid] w N H; try discriminate;
    [reflexivity|].
  cbn [forallb] in H. apply andb_prop in H as [Hr Hg].
  apply andb_prop in Hr as [Hn Hr]. apply Nat.eqb_eq in Hn.
  cbn [app map transitionRows combine flat_map fst snd bufferAfter fold_left].
  rewrite unlines_cons, (getline_line _ _ _ (wellFormed_shortLine _ Hr)).
  rewrite (transitionRow_wellFormed atof atof_comma _ _ _ Hn Hr).
  rewrite <- app_assoc. f_equal.
  apply IH; [simpl in N; lia|assumption].
Qed.

(** X12: a transition probabilities file of fewer than 11 lines is not
    reported: the probabilities of the missing rows are those of the last
    line of the file, read again from the array, except in column 0,
    which gets [atof] of the empty text. *)
Theorem short_grid_repeats_last_row
    (grid : list (list (list ascii))) (a : ascii) (f : list ascii)
    (row : list (list ascii)) (wholeLine : list ascii) :
  (length grid < 11)%nat ->
  forallb (fun row => (length row =? 11)%nat && wellFormed row)
          (grid ++ [(a :: f) :: row]) = true ->
  SetTransitions
    (Some (unlines (map joinFields (grid ++ [(a :: f) :: row])))) wholeLine =
  flat_map (fun ir => cellCalls' (fst ir + 38) generationIndices (snd ir))
           (combine generationIndices (grid ++ [(a :: f) :: row]))
  ++ flat_map (fun i => cellCalls' (i + 38) generationIndices ([] :: row))
       (skipn (S (length grid)) generationIndices).
Proof.
  intros K H. unfold SetTransitionProbabilitiesFromFile.
  fold generationIndices. rewrite open_reading.
  set (rows := grid ++ [(a :: f) :: row]) in *.
  assert (R : length rows = S (length grid))
    by (unfold rows; rewrite length_app; simpl; lia).
  assert (G : (length generationIndices = 11)%nat) by reflexivity.
  rewrite <- (firstn_skipn (length rows) generationIndices) at 1.
  rewrite <- (app_nil_r (unlines _)).
  rewrite transitionRows_prefix; trivial.
  2:{ rewrite length_firstn. lia. }
  f_equal.
  - now rewrite <- combine_firstn_r.
  - rewrite transitionRows_exhausted, R. apply flat_map_ext. intros i.
    unfold rows in *. rewrite map_app. cbn [map]. rewrite bufferAfter_last.
    rewrite forallb_app in H. apply andb_prop in H as [_ H].
    cbn [forallb] in H. apply andb_prop in H as [H _].
    apply andb_prop in H as [H1 H2]. apply Nat.eqb_eq in H1.
    now apply transitionRow_blank_after.
Qed.

End StaleArray.

Lemma getline_last l wholeLine :
  shortLine l = true ->
  snd (getline (reading l) wholeLine) = store l wholeLine.
Proof.
  intros H. unfold shortLine in H. apply andb_prop in H as [Hn L].
  apply Z.ltb_lt in L. pose proof bufferSize_val as B.
  unfold getline. cbn [reading good rest eofbit failbit negb andb].
  rewrite extract_eof by (trivial; lia). reflexivity.
Qed.

(** Indices paired with rows, the last index with the last row. *)
Lemma combine_append {A} (ixs : list Z) (rows : list A) (i : Z) (row : A) :
  length rows = length ixs ->
  combine (ixs ++ [i]) (rows ++ [row]) = combine ixs rows ++ [(i, row)].
Proof.
  revert rows. induction ixs as [|k ixs IH]; intros [|r rows] N;
    try discriminate; [reflexivity|].
  cbn [app combine]. f_equal. apply IH. simpl in N. lia.
Qed.

Section GridEnd.
Variable atof : list ascii -> float.
Hypothesis atof_comma : forall f, atof (f ++ [comma]) = atof f.

Local Abbreviation SetTransitions :=
  (SetTransitionProbabilitiesFromFile atof).
Local Abbreviation gridCalls' := (gridCalls atof).
Local Abbreviation transitionRows' := (transitionRows atof).

(** X13: the transition probabilities reader never tests for the end of
    the file: the eleventh line is parsed as well when no newline ends it, a
    line the emission reader would discard, and nothing after the
    eleventh line is read. *)
Theorem grid_reads_eleven_lines
    (grid : list (list (list ascii))) (last : list (list ascii))
    (wholeLine : list ascii) :
  wellFormedGrid (grid ++ [last]) = true ->
  SetTransitions (Some (unlines (map joinFields grid) ++ joinFields last))
    wholeLine = gridCalls' (grid ++ [last])
  /\
  forall more,
    SetTransitions
      (Some (unlines (map joinFields (grid ++ [last])) ++ more)) wholeLine =
    gridCalls' (grid ++ [last]).
Proof.
  unfold wellFormedGrid. intros H. apply andb_prop in H as [N H].
  apply Nat.eqb_eq in N. unfold SetTransitionProbabilitiesFromFile, gridCalls.
  fold generationIndices. split.
  - rewrite length_app in N. cbn [length] in N.
    rewrite forallb_app in H. apply andb_prop in H as [Hg Hl].
    cbn [forallb] in Hl. apply andb_prop in Hl as [Hl _].
    apply andb_prop in Hl as [L11 Hl]. apply Nat.eqb_eq in L11.
    rewrite open_reading.
    change generationIndices
      with (map Z.of_nat (seq 0 10) ++ [10]).
    rewrite (transitionRows_prefix atof atof_comma) by
      (trivial; rewrite length_map, length_seq; lia).
    rewrite combine_append by (rewrite length_map, length_seq; lia).
    rewrite flat_map_app. f_equal.
    cbn [transitionRows combine flat_map fst snd].
    pose proof (getline_last (joinFields last)
                  (bufferAfter (map joinFields grid) wholeLine)
                  (wellFormed_shortLine _ Hl)) as G.
    destruct (getline _ _) as [file w]. cbn [snd] in G. subst w.
    change (map Z.of_nat (seq 0 10) ++ [10]) with generationIndices.
    now rewrite (transitionRow_wellFormed atof atof_comma _ _ _ L11 Hl).
  - intros more. rewrite open_reading.
    apply (transitionRows_grid atof atof_comma); [|exact H].
    now rewrite N.
Qed.

End GridEnd.

(** *** The confusion matrix and the Dice counters *)

Lemma nth_setNth {A} (l : list A) n x k d :
  nth k (setNth l n x) d =
  if (k =? n)%nat && (n <? length l)%nat then x else nth k l d.
Proof.
  revert n k. induction l as [|a l IH]; intros [|n] [|k]; simpl;
    try reflexivity.
  - now rewrite andb_false_r.
  - rewrite IH. reflexivity.
Qed.

Lemma shape_rows m r :
  map (@length Z) m = repeat 10%nat 10 -> (r < 10)%nat ->
  exists row, nth_error m r = Some row /\ length row = 10%nat.
Proof.
  intros S R.
  assert (L : length m = 10%nat)
    by (rewrite <- (length_map (@length Z)), S; reflexivity).
  destruct (nth_error m r) as [row|] eqn:E.
  - exists row. split; [reflexivity|].
    pose proof (map_nth_error (@length Z) _ _ E) as E'. rewrite S in E'.
    apply nth_error_In, repeat_spec in E'. exact E'.
  - apply nth_error_None in E. lia.
Qed.

(** With ten rows of ten counters, a particle is counted exactly when
    both its labels are among the generations 0 to 9. *)
Lemma bump_defined m inType outType :
  map (@length Z) m = repeat 10%nat 10 ->
  (exists m', bump m inType outType = Some m') <->
  inMatrix inType /\ inMatrix outType.
Proof.
  intros S. unfold bump, inMatrix. cbv zeta.
  assert (L : length m = 10%nat)
    by (rewrite <- (length_map (@length Z)), S; reflexivity).
  destruct (0 <=? inType - 38) eqn:E1; cbn [andb];
    [apply Z.leb_le in E1|apply Z.leb_gt in E1;
       split; [intros [? [=]]|lia]].
  destruct (0 <=? outType - 38) eqn:E2;
    [apply Z.leb_le in E2|apply Z.leb_gt in E2;
       split; [intros [? [=]]|lia]].
  destruct (nth_error m (Z.to_nat (inType - 38))) as [row|] eqn:Er.
  - assert (R : (Z.to_nat (inType - 38) < 10)%nat)
      by (rewrite <- L; apply nth_error_Some; congruence).
    destruct (shape_rows m _ S R) as (row' & Er' & Lr).
    rewrite Er in Er'. injection Er' as <-.
    destruct (nth_error row (Z.to_nat (outType - 38))) as [n|] eqn:Ec.
    + assert (C : (Z.to_nat (outType - 38) < 10)%nat)
        by (rewrite <- Lr; apply nth_error_Some; congruence).
      split; [lia|eauto].
    + apply nth_error_None in Ec. split; [intros [? [=]]|lia].
  - apply nth_error_None in Er. split; [intros [? [=]]|lia].
Qed.

Lemma confusionCounts_defined types m :
  map (@length Z) m = repeat 10%nat 10 ->
  (exists m', confusionCounts m types = Some m') <->
  Forall (fun p => inMatrix (fst p) /\ inMatrix (snd p)) types.
Proof.
  revert m. induction types as [|[i o] types IH]; intros m S;
    cbn [confusionCounts].
  - split; [constructor|eauto].
  - pose proof (bump_defined m i o S) as B.
    destruct (bump m i o) as [m1|] eqn:E.
    + rewrite (IH m1) by (now rewrite (bump_shape _ _ _ _ E)).
      split.
      * intros F. constructor; [|exact F]. apply B. eauto.
      * intros F. now inversion F.
    + split; [intros [? [=]]|].
      intros F. inversion F as [|? ? F1 F2]; subst.
      apply B in F1 as [? [=]].
Qed.

(** X14: the matrix is defined exactly when every particle carries, before
    and after the labelling, one of the generations 0 to 9.  Any other
    label, generation 10 and the undefined type among them, indexes the
    vector out of its bounds, and there is no report. *)
Theorem confusion_defined_iff (types : list (Z * Z)) :
  ((exists m, confusionCounts confusionMatrix0 types = Some m) <->
   Forall (fun p => inMatrix (fst p) /\ inMatrix (snd p)) types)
  /\
  (confusionReport types = None <->
   Exists (fun p => ~ (inMatrix (fst p) /\ inMatrix (snd p))) types).
Proof.
  pose proof (confusionCounts_defined types confusionMatrix0 eq_refl) as D.
  split; [exact D|]. unfold confusionReport.
  assert (Dec : forall p : Z * Z,
            {inMatrix (fst p) /\ inMatrix (snd p)} +
            {~ (inMatrix (fst p) /\ inMatrix (snd p))}).
  { intros p. unfold inMatrix.
    destruct (Z_le_dec 38 (fst p)), (Z_le_dec (fst p) 47),
      (Z_le_dec 38 (snd p)), (Z_le_dec (snd p) 47);
      first [left; lia|right; lia]. }
  destruct (confusionCounts confusionMatrix0 types) as [m|]; cbn [option_map].
  - split; [discriminate|]. intros E. exfalso.
    assert (F : Forall (fun p => inMatrix (fst p) /\ inMatrix (snd p)) types)
      by (apply D; eauto).
    apply Exists_exists in E as (p & Hp & Np).
    rewrite Forall_forall in F. exact (Np (F p Hp)).
  - split; [intros _|reflexivity].
    destruct (Forall_Exists_dec _ Dec types) as [F|E]; [|exact E].
    apply D in F as [m [=]].
Qed.

Lemma bump_entry m inType outType m' r c :
  bump m inType outType = Some m' ->
  entry m' r c =
  if (r =? Z.to_nat (inType - 38))%nat && (c =? Z.to_nat (outType - 38))%nat
  then u32 (entry m r c + 1) else entry m r c.
Proof.
  unfold bump, entry. cbv zeta. destruct (_ && _); [|discriminate].
  destruct (nth_error m _) as [row|] eqn:Er; [|discriminate].
  destruct (nth_error row _) as [n|] eqn:Ec; [|discriminate].
  intros [= <-]. rewrite nth_setNth.
  assert (R : (Z.to_nat (inType - 38) < length m)%nat)
    by (apply nth_error_Some; congruence).
  assert (C : (Z.to_nat (outType - 38) < length row)%nat)
    by (apply nth_error_Some; congruence).
  apply Nat.ltb_lt in R, C. rewrite R, andb_true_r.
  destruct (r =? _)%nat eqn:E; cbn [andb]; [|reflexivity].
  apply Nat.eqb_eq in E. subst r.
  rewrite nth_setNth, C, andb_true_r.
  rewrite (nth_error_nth _ _ _ Er).
  destruct (c =? _)%nat eqn:E; [|reflexivity].
  apply Nat.eqb_eq in E. subst c. now rewrite (nth_error_nth _ _ _ Ec).
Qed.

Lemma bump_range m inType outType m' :
  map (@length Z) m = repeat 10%nat 10 ->
  bump m inType outType = Some m' -> inMatrix inType /\ inMatrix outType.
Proof. intros S E. apply (bump_defined m); eauto. Qed.

Lemma countPairs_cons p x types :
  countPairs p (x :: types) = (if p x then 1 else 0) + countPairs p types.
Proof.
  unfold countPairs. cbn [filter]. destruct (p x); cbn [length]; lia.
Qed.

Lemma countPairs_bounds p types : 0 <= countPairs p types <= len types.
Proof.
  unfold countPairs. pose proof (filter_length_le p types). lia.
Qed.

Lemma confusionCounts_entries types m m' :
  map (@length Z) m = repeat 10%nat 10 ->
  confusionCounts m types = Some m' ->
  forall r c : nat, (r < 10)%nat -> (c < 10)%nat ->
    0 <= entry m r c -> entry m r c + len types < 2 ^ 32 ->
    entry m' r c =
    entry m r c
    + countPairs (fun p => (fst p =? 38 + Z.of_nat r)
                           && (snd p =? 38 + Z.of_nat c)) types.
Proof.
  revert m. induction types as [|[i o] types IH]; intros m S;
    cbn [confusionCounts].
  - intros [= <-] r c _ _ _ _. unfold countPairs. simpl. lia.
  - destruct (bump m i o) as [m1|] eqn:E; [|discriminate].
    intros H r c R C P B. cbn [length] in B.
    destruct (bump_range _ _ _ _ S E) as [Ri Ro]. unfold inMatrix in Ri, Ro.
    pose proof (bump_entry _ _ _ _ r c E) as E1.
    rewrite countPairs_cons. cbn [fst snd].
    assert (S1 : map (@length Z) m1 = repeat 10%nat 10)
      by now rewrite (bump_shape _ _ _ _ E).
    destruct ((r =? _)%nat && (c =? _)%nat) eqn:D.
    + apply andb_prop in D as [D1 D2]. apply Nat.eqb_eq in D1, D2.
      replace (i =? 38 + Z.of_nat r) with true by (symmetry; lia).
      replace (o =? 38 + Z.of_nat c) with true by (symmetry; lia).
      cbn [andb]. rewrite u32_small in E1 by lia.
      rewrite (IH m1 S1 H r c R C) by lia. lia.
    + replace ((i =? 38 + Z.of_nat r) && (o =? 38 + Z.of_nat c)) with false.
      * rewrite (IH m1 S1 H r c R C) by lia. lia.
      * symmetry. apply andb_false_iff.
        apply andb_false_iff in D as [D|D]; apply Nat.eqb_neq in D;
          [left|right]; lia.
Qed.

Lemma confusionMatrix0_entry r c : entry confusionMatrix0 r c = 0.
Proof.
  unfold entry, confusionMatrix0.
  do 10 (destruct r as [|r];
         [do 10 (destruct c as [|c]; [reflexivity|]); now destruct c|]).
  destruct r, c; reflexivity.
Qed.

(** X15: with fewer than 2^32 particles, entry [(r, c)] of the matrix is
    the number of particles that went from generation [r] to generation
    [c]. *)
Theorem confusion_entries_count (types : list (Z * Z)) (m : list (list Z)) :
  confusionCounts confusionMatrix0 types = Some m ->
  len types < 2 ^ 32 ->
  forall r c : nat, (r < 10)%nat -> (c < 10)%nat ->
    entry m r c =
    countPairs (fun p => (fst p =? 38 + Z.of_nat r)
                         && (snd p =? 38 + Z.of_nat c)) types.
Proof.
  intros H L r c R C. pose proof (confusionMatrix0_entry r c) as Z0.
  rewrite (confusionCounts_entries types confusionMatrix0 m eq_refl H r c R C);
    lia.
Qed.

Lemma particleLoop_split types m c :
  particleLoop m c types =
  option_map (fun m' => (m', tallies c types)) (confusionCounts m types).
Proof.
  revert m c. induction types as [|[i o] types IH]; intros m c;
    cbn [particleLoop confusionCounts]; [reflexivity|].
  destruct (bump m i o); [|reflexivity]. apply IH.
Qed.

Lemma increment_counts (sel : Z * Z -> Z) (get : counters -> Z -> Z) types :
  (forall c i o k, get (tally c i o) k = increment (get c) (sel (i, o)) k) ->
  forall c k,
    0 <= get c k -> get c k + len types < 2 ^ 32 ->
    get (tallies c types) k =
    get c k + countPairs (fun p => sel p =? k) types.
Proof.
  intros T. induction types as [|[i o] types IH]; intros c k P B.
  - unfold countPairs. simpl. lia.
  - cbn [length] in B. unfold tallies in *. cbn [fold_left fst snd].
    rewrite countPairs_cons.
    assert (E : get (tally c i o) k =
                get c k + if sel (i, o) =? k then 1 else 0).
    { rewrite T. unfold increment. rewrite (Z.eqb_sym k).
      destruct (_ =? _); [rewrite u32_small|]; lia. }
    rewrite IH; destruct (sel (i, o) =? k); lia.
Qed.

Lemma intersection_counts types :
  forall c k,
    0 <= intersectionCounter c k ->
    intersectionCounter c k + len types < 2 ^ 32 ->
    intersectionCounter (tallies c types) k =
    intersectionCounter c k
    + countPairs (fun p => (fst p =? k) && (snd p =? k)) types.
Proof.
  induction types as [|[i o] types IH]; intros c k P B.
  - unfold countPairs. simpl. lia.
  - cbn [length] in B. unfold tallies in *. cbn [fold_left fst snd].
    rewrite countPairs_cons. cbn [fst snd].
    assert (E : intersectionCounter (tally c i o) k =
                intersectionCounter c k
                + if (i =? k) && (o =? k) then 1 else 0).
    { cbn [tally intersectionCounter]. unfold increment.
      destruct (i =? o) eqn:Eio.
      - apply Z.eqb_eq in Eio. subst o. rewrite (Z.eqb_sym k).
        destruct (i =? k); cbn [andb]; [rewrite u32_small|]; lia.
      - replace ((i =? k) && (o =? k)) with false; [lia|].
        symmetry. apply andb_false_iff. apply Z.eqb_neq in Eio.
        destruct (Z.eqb_spec i k); [right; apply Z.eqb_neq; lia|now left]. }
    rewrite IH; destruct ((i =? k) && (o =? k)); lia.
Qed.

Lemma countPairs_le p q types :
  (forall x, p x = true -> q x = true) ->
  countPairs p types <= countPairs q types.
Proof.
  intros I. induction types as [|x types IH].
  - unfold countPairs. simpl. lia.
  - rewrite !countPairs_cons. specialize (I x).
    destruct (p x); [rewrite I by reflexivity; lia|destruct (q x); lia].
Qed.

(** X16: with fewer than 2^32 particles the three counters hold, for every
    label, the number of particles that carry it before the labelling,
    after it, and both before and after; the last is the diagonal entry
    of the confusion matrix and exceeds neither of the others. *)
Theorem dice_counters_count (types : list (Z * Z)) (m : list (list Z))
    (c : counters) :
  particleLoop confusionMatrix0 counters0 types = Some (m, c) ->
  len types < 2 ^ 32 ->
  forall k,
    inTypeCounter c k = countPairs (fun p => fst p =? k) types /\
    outTypeCounter c k = countPairs (fun p => snd p =? k) types /\
    intersectionCounter c k =
      countPairs (fun p => (fst p =? k) && (snd p =? k)) types /\
    intersectionCounter c k <= inTypeCounter c k /\
    intersectionCounter c k <= outTypeCounter c k /\
    (forall r : nat, (r < 10)%nat -> k = 38 + Z.of_nat r ->
       entry m r r = intersectionCounter c k).
Proof.
  intros H L k. rewrite particleLoop_split in H.
  destruct (confusionCounts confusionMatrix0 types) as [m'|] eqn:E;
    [|discriminate].
  injection H as -> <-.
  assert (I : inTypeCounter (tallies counters0 types) k =
              countPairs (fun p => fst p =? k) types).
  { rewrite (increment_counts fst inTypeCounter types);
      [reflexivity|reflexivity|simpl; lia|simpl; lia]. }
  assert (O : outTypeCounter (tallies counters0 types) k =
              countPairs (fun p => snd p =? k) types).
  { rewrite (increment_counts snd outTypeCounter types);
      [reflexivity|reflexivity|simpl; lia|simpl; lia]. }
  assert (X : intersectionCounter (tallies counters0 types) k =
              countPairs (fun p => (fst p =? k) && (snd p =? k)) types).
  { rewrite intersection_counts; simpl; lia. }
  rewrite I, O, X. repeat split.
  - apply countPairs_le. intros x Hx. now apply andb_prop in Hx.
  - apply countPairs_le. intros x Hx. now apply andb_prop in Hx.
  - intros r R ->. pose proof (confusionMatrix0_entry r r) as Z0.
    rewrite (confusionCounts_entries types confusionMatrix0 m eq_refl E
               r r R R); lia.
Qed.

Lemma tallies_untouched types c k :
  Forall (fun p => fst p <> k /\ snd p <> k) types ->
  inTypeCounter (tallies c types) k = inTypeCounter c k /\
  outTypeCounter (tallies c types) k = outTypeCounter c k /\
  intersectionCounter (tallies c types) k = intersectionCounter c k.
Proof.
  revert c. induction types as [|[i o] types IH]; intros c F;
    [now repeat split|].
  inversion F as [|? ? [Fi Fo] F']; subst. cbn [fst snd] in *.
  unfold tallies in *. cbn [fold_left fst snd].
  destruct (IH (tally c i o) F') as (-> & -> & ->).
  cbn [tally inTypeCounter outTypeCounter intersectionCounter].
  unfold increment.
  replace (k =? i) with false by (symmetry; apply Z.eqb_neq; lia).
  replace (k =? o) with false by (symmetry; apply Z.eqb_neq; lia).
  repeat split. destruct (i =? o); [|reflexivity].
  now replace (k =? i) with false by (symmetry; apply Z.eqb_neq; lia).
Qed.

Lemma diceLine_outside types m c state :
  particleLoop confusionMatrix0 counters0 types = Some (m, c) ->
  ~ inMatrix state -> diceLine c state = None.
Proof.
  intros H N. rewrite particleLoop_split in H.
  destruct (confusionCounts confusionMatrix0 types) as [m'|] eqn:E;
    [|discriminate].
  injection H as -> <-.
  assert (F : Forall (fun p => inMatrix (fst p) /\ inMatrix (snd p)) types)
    by (apply (confusionCounts_defined types confusionMatrix0 eq_refl); eauto).
  assert (F' : Forall (fun p => fst p <> state /\ snd p <> state) types).
  { eapply Forall_impl; [|exact F]. intros p [P1 P2].
    split; intros Q; apply N; now rewrite <- Q. }
  destruct (tallies_untouched types counters0 state F') as (I & O & X).
  unfold diceLine. cbv zeta. rewrite I, O, X. reflexivity.
Qed.

Lemma diceLine_state c state l : diceLine c state = Some l -> fst l = state.
Proof.
  unfold diceLine. cbv zeta. destruct (_ <? _)%float; [|discriminate].
  now intros [= <-].
Qed.

(** X17: of the states the Dice loop goes through, only the generations
    0 to 9 can get a line.  Whenever the particle loop is defined, the
    counters of any other state, generation 10 and the undefined type
    among them, are zero and the test [denom > 0.0] fails. *)
Theorem dice_lines_inside_matrix (types : list (Z * Z)) (m : list (list Z))
    (c : counters) (statesVec : list Z) :
  particleLoop confusionMatrix0 counters0 types = Some (m, c) ->
  Forall (fun l => inMatrix (fst l)) (diceLines statesVec c) /\
  forall state, ~ inMatrix state -> diceLine c state = None.
Proof.
  intros H. split; [|intros state; now apply (diceLine_outside types m)].
  unfold diceLines. apply Forall_flat_map, Forall_forall. intros s _.
  destruct (diceLine c s) as [l|] eqn:E; constructor; [|constructor].
  rewrite (diceLine_state _ _ _ E).
  destruct (Z_le_dec 38 s) as [A|A], (Z_le_dec s 47) as [B|B];
    [split; assumption| | |];
    rewrite (diceLine_outside types m c s H) in E by (unfold inMatrix; lia);
    discriminate.
Qed.

(** *** The further properties on sample files *)

Lemma without_repeat c a n :
  Ascii.eqb a c = false -> without c (repeat a n) = true.
Proof.
  intros E. induction n as [|n IH]; [reflexivity|].
  cbn [repeat]. now rewrite without_cons, E, IH.
Qed.

(** A line read into an array of null characters. *)
Lemma getline_keeps_array_witness :
  length (snd (getline (reading (unlines [chars "0.5,0.5"])) blank))
  = bufferSize.
Proof.
  exact (proj1 (getline_keeps_array _ blank (repeat_length NUL bufferSize))).
Defined.

(** One row under the header and the beginning of a second, the lookup
    disregarding the comma. *)
Lemma emission_reader_calls_witness :
  lenientSetEmission 2
    (Some (unlines
       (emissionHeader ::
        map emissionLine
          [emissionRecord "AIRWAYGENERATION0" "0.5" "0.25" "1.5" "2" "3" "4"
             "20"])
       ++ chars "AIRWAYGENERATION1,1,2"))
    blank =
  Some [SetScaleStandardDeviation 38 0.25; SetDistanceStandardDeviation 38 2;
        SetAngleStandardDeviation 38 4; SetScaleMean 38 0.5;
        SetDistanceMean 38 1.5; SetAngleMean 38 3].
Proof.
  unfold lenientSetEmission.
  rewrite emission_reader_calls;
    [vm_compute; reflexivity|reflexivity|reflexivity|reflexivity|simpl; lia].
Defined.

(** The six calls of the sample row are for the valid type 38. *)
Lemma emission_calls_valid_witness :
  emissionGroups refNumberOfEnumeratedChestRegions
    [SetScaleStandardDeviation 38 0.25; SetDistanceStandardDeviation 38 2;
     SetAngleStandardDeviation 38 4; SetScaleMean 38 0.5;
     SetDistanceMean 38 1.5; SetAngleMean 38 3].
Proof.
  refine (proj1 (emission_calls_valid refAtof lenientGetChestTypeValueFromName
                   refNumberOfEnumeratedChestRegions 2
                   (Some (unlines [emissionHeader;
                      chars "AIRWAYGENERATION0,0.5,0.25,1.5,2,3,4,20"]))
                   blank _ _)).
  vm_compute. reflexivity.
Defined.

(** A standard deviation written [-0.25] gives the variance 0.0625. *)
Lemma stats_variances_witness :
  Forall (fun c => exists v1 v2, callVariances c = Some (v1, v2) /\
                   (v1 <? 0)%float = false /\ (v2 <? 0)%float = false)
    [SetNormalTransitionProbabilityMeansAndVariances 38 39 0.5 0.0625 1.5 4].
Proof.
  refine (stats_variances_not_negative refAtof refGetChestTypeValueFromName 3
            (Some (unlines [statsHeader;
               chars "AIRWAYGENERATION0,AIRWAYGENERATION1,0.5,-0.25,1.5,2,11"]))
            blank _ _).
  vm_compute. reflexivity.
Defined.

(** No file: the emission reader returns at once, the transition
    statistics reader does not return. *)
Lemma unopenable_files_witness :
  refSetEmission 1 None blank = Some [] /\ refSetStats 5 None blank = None.
Proof.
  destruct (unopenable_files refAtof refGetChestTypeValueFromName
              refNumberOfEnumeratedChestRegions blank) as (E & S & _).
  split; [apply E; reflexivity|apply S].
Defined.

(** A row, an empty line and a second row: the second row is not set. *)
Lemma emission_blank_line_witness :
  lenientSetEmission 4
    (Some (unlines
       (emissionHeader ::
        map emissionLine
          [emissionRecord "AIRWAYGENERATION0" "0.5" "0.25" "1.5" "2" "3" "4"
             "20"]
        ++ [] :: [chars "AIRWAYGENERATION1,1,2,3,4,5,6,30"])))
    blank =
  Some [SetScaleStandardDeviation 38 0.25; SetDistanceStandardDeviation 38 2;
        SetAngleStandardDeviation 38 4; SetScaleMean 38 0.5;
        SetDistanceMean 38 1.5; SetAngleMean 38 3].
Proof.
  unfold lenientSetEmission.
  rewrite emission_blank_line_stops;
    [vm_compute; reflexivity|reflexivity|reflexivity|reflexivity|reflexivity
    |simpl; lia].
Defined.

(** A second line of 100000 letters. *)
Lemma stats_overlong_line_witness :
  refSetStats 5
    (Some (unlines [statsHeader] ++ repeat "a"%char bufferSize ++ [newline]))
    blank = None.
Proof.
  apply (stats_overlong_line_never_returns refAtof
           refGetChestTypeValueFromName statsHeader []
           (repeat "a"%char bufferSize) [newline] blank 5);
    [reflexivity|reflexivity|now apply without_repeat|].
  rewrite repeat_length. lia.
Defined.

(** A row, an empty line, and the row counted twice. *)
Lemma stats_blank_line_witness :
  refSetStats 4
    (Some (unlines
       (statsHeader ::
        map statsLine
          ([] ++ [statsRecord "AIRWAYGENERATION0" "AIRWAYGENERATION1"
                    "0.5" "0.25" "1.5" "2" "11"])
        ++ [] :: map statsLine [])))
    blank =
  Some [SetNormalTransitionProbabilityMeansAndVariances 38 39 0.5 0.0625 1.5 4;
        SetNormalTransitionProbabilityMeansAndVariances 0 39 0.5 0.0625 1.5 4].
Proof.
  unfold refSetStats.
  rewrite (stats_blank_line_repeats_row refAtof refGetChestTypeValueFromName
             statsHeader [] []
             (statsRecord "AIRWAYGENERATION0" "AIRWAYGENERATION1"
                "0.5" "0.25" "1.5" "2" "11")
             "A"%char (chars "IRWAYGENERATION0") blank 4);
    [vm_compute; reflexivity|reflexivity|reflexivity|reflexivity|simpl; lia].
Defined.

(** The first two lines of the sample grid alone: generation 10 gets the
    probabilities of the second line, one half of going to generation 2. *)
Lemma short_grid_witness :
  storedTransitionProbability
    (refSetTransitions
       (Some (unlines (map joinFields
          (firstn 1 sampleGrid
           ++ [("0"%char :: []) :: tl (nth 1 sampleGrid [])]))))
       blank)
    48 40 = Some 0.5%float.
Proof.
  unfold refSetTransitions.
  rewrite (short_grid_repeats_last_row refAtof refAtof_comma
             (firstn 1 sampleGrid) "0"%char [] (tl (nth 1 sampleGrid []))
             blank);
    [vm_compute; reflexivity|simpl; lia|reflexivity].
Defined.

(** The sample grid without the newline that ends its last line. *)
Lemma grid_reads_eleven_lines_witness :
  refSetTransitions
    (Some (unlines (map joinFields (firstn 10 sampleGrid))
           ++ joinFields (nth 10 sampleGrid [])))
    blank =
  gridCalls refAtof (firstn 10 sampleGrid ++ [nth 10 sampleGrid []]).
Proof.
  exact (proj1 (grid_reads_eleven_lines refAtof refAtof_comma
                  (firstn 10 sampleGrid) (nth 10 sampleGrid []) blank
                  eq_refl)).
Defined.

(** Generations 0 and 9 are inside the matrix. *)
Lemma confusion_defined_witness :
  exists m, confusionCounts confusionMatrix0 [(38, 47); (47, 38)] = Some m.
Proof.
  apply (proj1 (confusion_defined_iff [(38, 47); (47, 38)])).
  repeat constructor; unfold inMatrix; simpl; lia.
Defined.

(** Two of the three sample particles stay in generation 0. *)
Lemma confusion_entries_witness :
  option_map (fun m => entry m 0 0) (confusionCounts confusionMatrix0 sampleTypes)
  = Some 2.
Proof.
  destruct (confusionCounts confusionMatrix0 sampleTypes) as [m|] eqn:E;
    [|discriminate E].
  cbn [option_map]. f_equal.
  rewrite (confusion_entries_count sampleTypes m E); [reflexivity| | |];
    simpl; lia.
Defined.

(** Generation 0 is the input label of two sample particles. *)
Lemma dice_counters_witness :
  option_map (fun mc => inTypeCounter (snd mc) 38)
    (particleLoop confusionMatrix0 counters0 sampleTypes) = Some 2.
Proof.
  destruct (particleLoop confusionMatrix0 counters0 sampleTypes)
    as [[m c]|] eqn:E; [|discriminate E].
  cbn [option_map snd]. f_equal.
  destruct (dice_counters_count sampleTypes m c E) with (k := 38) as [I _];
    [simpl; lia|].
  rewrite I. reflexivity.
Defined.

(** No Dice line for generation 10 on the sample particles. *)
Lemma dice_lines_witness :
  option_map (fun mc => diceLine (snd mc) 48)
    (particleLoop confusionMatrix0 counters0 sampleTypes) = Some None.
Proof.
  destruct (particleLoop confusionMatrix0 counters0 sampleTypes)
    as [[m c]|] eqn:E; [|discriminate E].
  cbn [option_map snd]. f_equal.
  apply (proj2 (dice_lines_inside_matrix sampleTypes m c [] E)).
  unfold inMatrix. lia.
Defined.

End Labeler.
